(** * ONVIF client: discovery de-duplication, SOAP transport and fault parsing

    A shallow embedding of the protocol core of the Go package [onvif]:
    [parseScopes] and [deduplicateCameras] of discovery.go,
    [generatePasswordDigest], [sendSOAPRequest] and [getFirstAddress] of
    soap.go, and [escapeXML], [parseSOAPFault], [extractBetweenTags] and
    [extractTextElement] of the user-management file.

    Conventions.
    - A Go [string] is a sequence of bytes; it is modelled by [string], whose
      characters are the 256 values of [ascii].
    - A Go [int] used as an index is a [Z]; "not found" is [-1], as in Go.
    - A run-time panic is a value of the result type [run].
    - A Go [error] is an [option string]: [None] is [nil], [Some msg] the
      error made by [fmt.Errorf] with text [msg].
    - [strings.Fields] and [strings.TrimSpace] are modelled on the ASCII white
      space set (tab, line feed, vertical tab, form feed, carriage return and
      space), which is what Go uses on strings of ASCII bytes.
    - The order in which [range] visits a Go map is an argument
      ([rangeOrder]); the clock readings and the HTTP exchange of
      [sendSOAPRequest] are arguments as well ([World]).
    - [crypto/sha1] and [encoding/base64] of the Go standard library are
      modelled after FIPS 180 and RFC 4648. *)

From Stdlib Require Import ZArith NArith String Ascii List Lia Bool DecimalString.
From stdpp Require Import gmap strings list finite vector.

Local Open Scope string_scope.
Local Open Scope Z_scope.

(** Appending to a string that starts with a known byte simplifies. *)
#[global] Arguments String.append !s1 s2 : simpl nomatch.

(** ** The Go [strings] package, on byte strings *)

Module Strings.

Definition len (s : string) : Z := Z.of_nat (String.length s).

Fixpoint HasPrefix (s prefix : string) {struct prefix} : bool :=
  match prefix, s with
  | EmptyString, _ => true
  | String p ps, String c cs => Ascii.eqb c p && HasPrefix cs ps
  | String _ _, EmptyString => false
  end.

(** Position of the first occurrence of [substr] in [s], if any. *)
Fixpoint index_nat (s substr : string) : option nat :=
  if HasPrefix s substr then Some 0%nat
  else match s with
       | EmptyString => None
       | String _ t => S <$> index_nat t substr
       end.

(** [strings.Index]: [-1] when [substr] does not occur in [s]. *)
Definition Index (s substr : string) : Z :=
  match index_nat s substr with
  | Some n => Z.of_nat n
  | None => -1
  end.

Definition Contains (s substr : string) : bool := 0 <=? Index s substr.

Fixpoint drop (n : nat) (s : string) : string :=
  match n, s with
  | O, _ => s
  | S n', String _ t => drop n' t
  | S _, EmptyString => EmptyString
  end.

Fixpoint take (n : nat) (s : string) : string :=
  match n, s with
  | O, _ => EmptyString
  | S n', String c t => String c (take n' t)
  | S _, EmptyString => EmptyString
  end.

(** The slice expressions [s[i:]] and [s[i:j]] for indices in range. *)
Definition from (s : string) (i : Z) : string := drop (Z.to_nat i) s.
Definition slice (s : string) (i j : Z) : string :=
  take (Z.to_nat (j - i)) (drop (Z.to_nat i) s).

(** The byte [s[i]], when [0 <= i < len s]. *)
Definition at_ (s : string) (i : Z) : option ascii :=
  if i <? 0 then None else String.get (Z.to_nat i) s.

(** ASCII white space, [asciiSpace] in Go. *)
Definition isSpace (c : ascii) : bool :=
  match nat_of_ascii c with
  | 9%nat | 10%nat | 11%nat | 12%nat | 13%nat | 32%nat => true
  | _ => false
  end.

(** [strings.Fields]: the maximal runs of non-space bytes, in order.  [cur]
    is the field being read. *)
Fixpoint fieldsFrom (cur : string) (s : string) : list string :=
  match s with
  | EmptyString => if String.eqb cur "" then [] else [cur]
  | String c t =>
      if isSpace c
      then (if String.eqb cur "" then fieldsFrom "" t
            else cur :: fieldsFrom "" t)
      else fieldsFrom (cur +:+ String c "") t
  end.

Definition Fields (s : string) : list string := fieldsFrom "" s.

(** [strings.TrimSpace]. *)
Fixpoint trimLeft (s : string) : string :=
  match s with
  | String c t => if isSpace c then trimLeft t else s
  | EmptyString => EmptyString
  end.

Fixpoint trimRight (s : string) : string :=
  match s with
  | EmptyString => EmptyString
  | String c t =>
      match trimRight t with
      | EmptyString => if isSpace c then EmptyString else String c EmptyString
      | t' => String c t'
      end
  end.

Definition TrimSpace (s : string) : string := trimRight (trimLeft s).

(** [strings.Replace s old new n] for a non-empty [old]: the first [n]
    non-overlapping occurrences of [old], scanning from the left, are
    replaced by [new]; all of them when [n < 0].  [skip] counts the bytes
    of an occurrence that is being stepped over.  No call in the package
    passes an empty [old]; the model returns [s] unchanged there. *)
Fixpoint replaceFrom (old new : string) (skip : nat) (n : Z) (s : string)
  : string :=
  match s with
  | EmptyString => EmptyString
  | String c t =>
      match skip with
      | S k => replaceFrom old new k n t
      | O =>
          if negb (n =? 0) && HasPrefix s old
          then new +:+ replaceFrom old new (String.length old - 1) (n - 1) t
          else String c (replaceFrom old new O n t)
      end
  end.

Definition Replace (s old new : string) (n : Z) : string :=
  if String.eqb old "" then s
  else if String.eqb old new then s
  else replaceFrom old new O n s.

Definition ReplaceAll (s old new : string) : string := Replace s old new (-1).

(** [strings.Split s sep] for a non-empty [sep]: the pieces between the
    successive non-overlapping occurrences of [sep]; always at least one
    piece.  No call in the package passes an empty [sep]. *)
Fixpoint splitFrom (sep : string) (skip : nat) (cur : string) (s : string)
  : list string :=
  match s with
  | EmptyString => [cur]
  | String c t =>
      match skip with
      | S k => splitFrom sep k cur t
      | O =>
          if HasPrefix s sep
          then cur :: splitFrom sep (String.length sep - 1) "" t
          else splitFrom sep O (cur +:+ String c "") t
      end
  end.

Definition Split (s sep : string) : list string := splitFrom sep O "" s.

(** Number of occurrences of a byte in a string. *)
Fixpoint occurrences (c : ascii) (s : string) : nat :=
  match s with
  | EmptyString => O
  | String x t => ((if Ascii.eqb x c then 1 else 0) + occurrences c t)%nat
  end.

End Strings.

Import Strings.

(** The double quote character, and a text between double quotes. *)
Definition quote : string := String "034" EmptyString.
Definition quoted (s : string) : string := quote +:+ s +:+ quote.

(** Line feed and tab, as they occur in the raw string literals. *)
Definition nl : string := String "010" EmptyString.
Definition tab : string := String "009" EmptyString.

(** The text obtained by putting [f c] in place of every byte [c]. *)
Fixpoint expand (f : ascii → string) (s : string) : string :=
  match s with
  | EmptyString => EmptyString
  | String c t => f c +:+ expand f t
  end.

(** The 256 bytes. *)
#[global] Program Instance ascii_finite : Finite ascii :=
  {| enum := ascii_of_nat <$> seq 0 256 |}.
Next Obligation.
  apply NoDup_fmap_2_strong; [|apply NoDup_seq].
  intros x y Hx%elem_of_seq Hy%elem_of_seq Hxy.
  rewrite <- (nat_ascii_embedding x), <- (nat_ascii_embedding y) by lia.
  by rewrite Hxy.
Qed.
Next Obligation.
  intros c. apply list_elem_of_fmap. exists (nat_of_ascii c).
  split; [by rewrite ascii_nat_embedding|].
  apply elem_of_seq. pose proof (nat_ascii_bounded c). lia.
Qed.

(** ** Results of code that can panic *)

Inductive run (A : Type) : Type :=
| Done (a : A)
| Panic (msg : string).
Arguments Done {A} a.
Arguments Panic {A} msg.

#[global] Instance run_ret : MRet run := fun A a => Done a.
#[global] Instance run_bind : MBind run := fun A B f r =>
  match r with
  | Done a => f a
  | Panic msg => Panic msg
  end.

(** The index expression [l[0]] on a slice. *)
Definition first {A} (l : list A) : run A :=
  match l with
  | x :: _ => Done x
  | [] => Panic "runtime error: index out of range [0] with length 0"
  end.

(** ** types.go *)

Record Camera := {
  Name : string; Address : string; Profiles : list string;
  Model : string; Location : string;
  Hostname : string; HostnameFrom : string;
  Manufacturer : string; DeviceModel : string; FirmwareVersion : string;
  SerialNumber : string; HardwareId : string;
  TimeZone : string; DateTime : string;
  VideoSources : Z; VideoOutputs : Z; AudioSources : Z; AudioOutputs : Z;
  RelayOutputs : Z; PTZSupport : bool; AnalyticsSupport : bool;
  MediaURL : string; ImagingURL : string
}.

(** The composite literal of [DiscoverCameras]: the five discovery fields are
    set, every other field has its zero value. *)
Definition discovered (name address : string) (profiles : list string)
  (model location : string) : Camera :=
  {| Name := name; Address := address; Profiles := profiles;
     Model := model; Location := location;
     Hostname := ""; HostnameFrom := "";
     Manufacturer := ""; DeviceModel := ""; FirmwareVersion := "";
     SerialNumber := ""; HardwareId := "";
     TimeZone := ""; DateTime := "";
     VideoSources := 0; VideoOutputs := 0; AudioSources := 0;
     AudioOutputs := 0; RelayOutputs := 0;
     PTZSupport := false; AnalyticsSupport := false;
     MediaURL := ""; ImagingURL := "" |}.

(** ** discovery.go *)

Module Discovery.

Definition namePattern : string := "onvif://www.onvif.org/name/".
Definition locationPattern : string := "onvif://www.onvif.org/location/".
Definition hardwarePattern : string := "onvif://www.onvif.org/hardware/".

(** One iteration of the loop of [parseScopes] over the named results
    [(name, location, model)]. *)
Definition scopeStep (st : string * string * string) (scope : string)
  : string * string * string :=
  let '(name, location, model) := st in
  let scope := TrimSpace scope in
  if Contains scope namePattern then
    let name := Replace scope namePattern "" 1 in
    (Replace name "_" " " (-1), location, model)
  else if Contains scope locationPattern then
    let location := Replace scope locationPattern "" 1 in
    (name, Replace location "_" " " (-1), model)
  else if Contains scope hardwarePattern then
    let model := Replace scope hardwarePattern "" 1 in
    (name, location, Replace model "_" " " (-1))
  else st.

Definition parseScopes (scopes : string) : string * string * string :=
  let scopeList := Split scopes " " in
  fold_left scopeStep scopeList ("", "", "").





(** The body of the first loop of [deduplicateCameras]. *)
Definition dedupInsert (cameraMap : gmap string Camera) (camera : Camera)
  : run (gmap string Camera) :=
  let addresses := Fields (Address camera) in
  key ← first addresses;
  mret (match cameraMap !! key with
        | Some _ => cameraMap
        | None => <[key := camera]> cameraMap
        end).

Fixpoint dedupLoop (cameras : list Camera) (cameraMap : gmap string Camera)
  : run (gmap string Camera) :=
  match cameras with
  | [] => mret cameraMap
  | camera :: rest => m ← dedupInsert cameraMap camera; dedupLoop rest m
  end.

(** Go does not specify the order in which [range] visits the entries of a
    map; it only visits every entry exactly once.  A [rangeOrder] is one such
    way of enumerating maps. *)
Record rangeOrder := {
  visit :> gmap string Camera → list (string * Camera);
  visit_all : ∀ m, visit m ≡ₚ map_to_list m
}.

(** The enumeration of [map_to_list] is one of them. *)
Definition listOrder : rangeOrder :=
  {| visit := map_to_list; visit_all := fun m => reflexivity (map_to_list m) |}.

Definition deduplicateCameras (order : rangeOrder) (cameras : list Camera)
  : run (list Camera) :=
  cameraMap ← dedupLoop cameras ∅;
  mret ((order cameraMap).*2).

(** The key under which [deduplicateCameras] files a camera, when it has one. *)
Definition keyOf (camera : Camera) : option string :=
  head (Fields (Address camera)).

(** The first camera of a list that is filed under [key]. *)
Fixpoint firstSeen (key : string) (cameras : list Camera) : option Camera :=
  match cameras with
  | [] => None
  | camera :: rest =>
      if decide (keyOf camera = Some key) then Some camera
      else firstSeen key rest
  end.

(** Every entry of the map is filed under the key of its own camera. *)
Definition keyed (m : gmap string Camera) : Prop :=
  ∀ k c, m !! k = Some c → keyOf c = Some k.

(** Scenario B: two replies that advertise the same first address, the
    second one with a further address after it, and a third device. *)
Definition replyA : Camera :=
  discovered "Front door" "http://10.0.0.5/onvif/device_service"
    ["Network Video Transmitter"] "M1" "lobby".
Definition replyB : Camera :=
  discovered "Front door (2)"
    "http://10.0.0.5/onvif/device_service http://[fe80::1]/onvif/device_service"
    ["Device"] "M1" "".
Definition replyC : Camera :=
  discovered "Yard" "http://10.0.0.9/onvif/device_service" [] "M2" "yard".

(** A reply whose probe match carries no [XAddrs]. *)
Definition replyNoAddress : Camera := discovered "Ghost" "" [] "" "".

End Discovery.

(** ** soap.go: [getFirstAddress] *)

Definition getFirstAddress (address : string) : string :=
  let addresses := Fields address in
  match addresses with
  | a :: _ => a
  | [] => address
  end.

(** ** User management and SOAP fault handling *)

Module Faults.

Inductive UserLevel := MkUserLevel (level : string).
Definition UserLevelAdministrator := MkUserLevel "Administrator".
Definition UserLevelOperator := MkUserLevel "Operator".
Definition UserLevelUser := MkUserLevel "User".
Definition UserLevelAnonymous := MkUserLevel "Anonymous".
Definition levelString (l : UserLevel) : string := let 'MkUserLevel s := l in s.

Record User := { Username : string; Password : string; Level : UserLevel }.

(** [escapeXML] escapes special XML characters in a string. *)
Definition escapeXML (s : string) : string :=
  let s := ReplaceAll s "&" "&amp;" in
  let s := ReplaceAll s "<" "&lt;" in
  let s := ReplaceAll s ">" "&gt;" in
  let s := ReplaceAll s "'" "&apos;" in
  let s := ReplaceAll s quote "&quot;" in
  s.

(** The request body assembled by [CreateUsers] in a [strings.Builder]; the
    builder is the accumulated string. *)
Definition writeUser (usersXML : string) (user : User) : string :=
  let usersXML := usersXML +:+ "<tds:User>" in
  let usersXML := usersXML
    +:+ ("<tt:Username xmlns:tt=" +:+ quoted "http://www.onvif.org/ver10/schema" +:+ ">") in
  let usersXML := usersXML +:+ escapeXML (Username user) in
  let usersXML := usersXML +:+ "</tt:Username>" in
  let usersXML := usersXML
    +:+ ("<tt:Password xmlns:tt=" +:+ quoted "http://www.onvif.org/ver10/schema" +:+ ">") in
  let usersXML := usersXML +:+ escapeXML (Password user) in
  let usersXML := usersXML +:+ "</tt:Password>" in
  let usersXML := usersXML
    +:+ ("<tt:UserLevel xmlns:tt=" +:+ quoted "http://www.onvif.org/ver10/schema" +:+ ">") in
  let usersXML := usersXML +:+ levelString (Level user) in
  let usersXML := usersXML +:+ "</tt:UserLevel>" in
  usersXML +:+ "</tds:User>".

Definition createUsersBody (users : list User) : string :=
  fold_left writeUser users "<tds:CreateUsers>" +:+ "</tds:CreateUsers>".

(** The request body assembled by [DeleteUsers]. *)
Definition writeUsername (usernamesXML : string) (username : string) : string :=
  let usernamesXML := usernamesXML +:+ "<tds:Username>" in
  let usernamesXML := usernamesXML +:+ escapeXML username in
  usernamesXML +:+ "</tds:Username>".

Definition deleteUsersBody (usernames : list string) : string :=
  fold_left writeUsername usernames "<tds:DeleteUsers>" +:+ "</tds:DeleteUsers>".

(** The request body of [SetUser], a [fmt.Sprintf] with three [%s] verbs. *)
Definition setUserBody (user : User) : string :=
  "<tds:SetUser>" +:+ nl +:+ tab +:+ tab
  +:+ "<tds:User>" +:+ nl +:+ tab +:+ tab +:+ tab
  +:+ "<tt:Username xmlns:tt=" +:+ quoted "http://www.onvif.org/ver10/schema"
  +:+ ">" +:+ escapeXML (Username user) +:+ "</tt:Username>"
  +:+ nl +:+ tab +:+ tab +:+ tab
  +:+ "<tt:Password xmlns:tt=" +:+ quoted "http://www.onvif.org/ver10/schema"
  +:+ ">" +:+ escapeXML (Password user) +:+ "</tt:Password>"
  +:+ nl +:+ tab +:+ tab +:+ tab
  +:+ "<tt:UserLevel xmlns:tt=" +:+ quoted "http://www.onvif.org/ver10/schema"
  +:+ ">" +:+ levelString (Level user) +:+ "</tt:UserLevel>"
  +:+ nl +:+ tab +:+ tab
  +:+ "</tds:User>" +:+ nl +:+ tab
  +:+ "</tds:SetUser>".

(** The text that [escapeXML] puts in place of one byte. *)
Definition escapeByte (c : ascii) : string :=
  if Ascii.eqb c "&" then "&amp;"
  else if Ascii.eqb c "<" then "&lt;"
  else if Ascii.eqb c ">" then "&gt;"
  else if Ascii.eqb c "'" then "&apos;"
  else if Ascii.eqb c "034" then "&quot;"
  else String c "".

Definition entities : list string :=
  ["&amp;"; "&lt;"; "&gt;"; "&apos;"; "&quot;"].

(** [containsSOAPFault] checks if the response contains a SOAP fault element
    with any namespace prefix. *)
Definition containsSOAPFault (resp : string) : bool :=
  if Contains resp ":Fault>" || Contains resp ":Fault " then true
  else if Contains resp "<Fault>" || Contains resp "<Fault " then true
  else false.

(** The loop [for _, p := range patterns { if idx := Index(s, p); idx != -1
    { ...; break } }]: the index of the first pattern that occurs. *)
Fixpoint firstIndex (s : string) (patterns : list string) : Z :=
  match patterns with
  | [] => -1
  | pattern :: rest =>
      let idx := Index s pattern in
      if negb (idx =? -1) then idx else firstIndex s rest
  end.

(** The loop [for i := idx - 1; i >= 0 && i > idx-20; i-- { if s[i] == '<'
    { openIdx = i; break } }], started at [i]; [-1] when it ends without a
    hit.  The loop runs at most 19 times; [fuel] bounds the iterations. *)
Fixpoint walkBack (fuel : nat) (s : string) (idx i : Z) : Z :=
  match fuel with
  | O => -1
  | S fuel' =>
      if (0 <=? i) && (idx - 20 <? i)
      then match at_ s i with
           | Some "<"%char => i
           | _ => walkBack fuel' s idx (i - 1)
           end
      else -1
  end.

(** [extractBetweenTags] finds content between opening and closing tags with
    any namespace prefix. *)
Definition extractBetweenTags (s localName : string) : string :=
  let searchPatterns := ["<" +:+ localName +:+ ">"; "<" +:+ localName +:+ " "] in
  let openIdx := firstIndex s searchPatterns in
  let openIdx :=
    if openIdx =? -1 then
      let marker := ":" +:+ localName +:+ ">" in
      let idx := Index s marker in
      if negb (idx =? -1) then walkBack 20 s idx (idx - 1) else -1
    else openIdx in
  if openIdx =? -1 then ""
  else
    let contentStart := Index (from s openIdx) ">" in
    if contentStart =? -1 then ""
    else
      let contentStart := contentStart + openIdx + 1 in
      let closeMarker := ":" +:+ localName +:+ ">" in
      let closeIdx := Index (from s contentStart) closeMarker in
      let closeIdx :=
        if closeIdx =? -1
        then Index (from s contentStart) ("</" +:+ localName +:+ ">")
        else closeIdx in
      if closeIdx =? -1 then ""
      else slice s contentStart (contentStart + closeIdx).

(** The closing-tag loop of [extractTextElement]. *)
Fixpoint closeText (s : string) (contentStart : Z) (closeMarkers : list string)
  : string :=
  match closeMarkers with
  | [] => ""
  | closeMarker :: rest =>
      let closeTag := "</" +:+ closeMarker in
      let idx := Index (from s contentStart) closeTag in
      if negb (idx =? -1) then slice s contentStart (contentStart + idx)
      else closeText s contentStart rest
  end.

(** [extractTextElement] extracts text content from a Text element (SOAP 1.2
    fault reason). *)
Definition extractTextElement (s : string) : string :=
  let textStart := firstIndex s [":Text "; ":Text>"; "<Text "; "<Text>"] in
  if textStart =? -1 then ""
  else
    let contentStart := Index (from s textStart) ">" in
    if contentStart =? -1 then ""
    else
      let contentStart := contentStart + textStart + 1 in
      closeText s contentStart [":Text>"; "</Text>"].

(** [parseSOAPFault] checks for SOAP faults and returns a descriptive error;
    [None] is the [nil] error. *)
Definition parseSOAPFault (resp : string) : option string :=
  let respStr := resp in
  if negb (containsSOAPFault respStr) then None
  else if Contains respStr "ter:UsernameClash" then Some "username already exists"
  else if Contains respStr "ter:UsernameMissing" then Some "username not found"
  else if Contains respStr "ter:TooManyUsers"
       then Some "maximum number of users reached"
  else if Contains respStr "ter:FixedUser"
       then Some "cannot modify or delete fixed user"
  else if Contains respStr "ter:Password"
       then Some "password does not meet requirements"
  else if Contains respStr "NotAuthorized" || Contains respStr "ter:NotAuthorized"
       then Some "not authorized"
  else
    let reason := extractBetweenTags respStr "Reason" in
    let text := if negb (String.eqb reason "") then extractTextElement reason
                else "" in
    if negb (String.eqb reason "") && negb (String.eqb text "")
    then Some ("SOAP fault: " +:+ text)
    else
      let start := Index respStr "<faultstring>" in
      let end_ := if negb (start =? -1)
                  then Index (from respStr (start + len "<faultstring>"))
                         "</faultstring>"
                  else -1 in
      if negb (start =? -1) && negb (end_ =? -1)
      then let start := start + len "<faultstring>" in
           Some ("SOAP fault: " +:+ slice respStr start (start + end_))
      else Some "SOAP fault in response".

(** Scenario C: a SOAP 1.2 fault whose reason text is "Sender not
    authorized", in its shortest form and as devices send it. *)
Definition scenarioC : string :=
  "<SOAP-ENV:Fault><SOAP-ENV:Reason><SOAP-ENV:Text>Sender not authorized</SOAP-ENV:Text></SOAP-ENV:Reason></SOAP-ENV:Fault>".

Definition scenarioC_envelope : string :=
  "<?xml version=" +:+ quoted "1.0" +:+ " encoding=" +:+ quoted "UTF-8"
  +:+ "?><SOAP-ENV:Envelope xmlns:SOAP-ENV="
  +:+ quoted "http://www.w3.org/2003/05/soap-envelope"
  +:+ "><SOAP-ENV:Body><SOAP-ENV:Fault><SOAP-ENV:Code><SOAP-ENV:Value>SOAP-ENV:Sender</SOAP-ENV:Value></SOAP-ENV:Code><SOAP-ENV:Reason><SOAP-ENV:Text xml:lang="
  +:+ quoted "en"
  +:+ ">Sender not authorized</SOAP-ENV:Text></SOAP-ENV:Reason></SOAP-ENV:Fault></SOAP-ENV:Body></SOAP-ENV:Envelope>".

(** A stream URI answer as [GetStreamUri] falls back to it. *)
Definition uriFragment : string :=
  "<trt:MediaUri><tt:Uri>rtsp://10.0.0.5/stream1</tt:Uri></trt:MediaUri>".

End Faults.

(** ** crypto/sha1 and encoding/base64 *)

Module Crypto.

(** Bytes as numbers. *)
Definition byteZ (c : ascii) : Z := Z.of_N (N_of_ascii c).
Definition Zbyte (x : Z) : ascii := ascii_of_N (Z.to_N (x mod 256)).

Definition bytes (s : string) : list Z := byteZ <$> list_ascii_of_string s.

(** 32-bit words with wrap-around. *)
Definition w32 (x : Z) : Z := x mod 2 ^ 32.
Definition add32 (x y : Z) : Z := w32 (x + y).
Definition rotl32 (n x : Z) : Z :=
  w32 (Z.lor (Z.shiftl x n) (Z.shiftr x (32 - n))).
Definition not32 (x : Z) : Z := 2 ^ 32 - 1 - x.

(** The big-endian bytes of a number, [n] of them. *)
Fixpoint bigEndian (n : nat) (x : Z) : list Z :=
  match n with
  | O => []
  | S n' => (Z.shiftr x (8 * Z.of_nat n')) mod 256 :: bigEndian n' x
  end.

(** Padding: a one bit, zeros up to 56 modulo 64 bytes, and the length of
    the message in bits as a 64-bit number. *)
Definition padding (msgLen : Z) : list Z :=
  (128 :: repeat 0 (Z.to_nat ((55 - msgLen) mod 64))
   ++ bigEndian 8 ((8 * msgLen) mod 2 ^ 64))%list.

(** The words of a block, four bytes each, most significant first. *)
Fixpoint words (l : list Z) : list Z :=
  match l with
  | a :: b :: c :: d :: rest =>
      (Z.shiftl a 24 + Z.shiftl b 16 + Z.shiftl c 8 + d) :: words rest
  | _ => []
  end.

(** The message schedule, newest word first: [w t] is the rotation by one
    of [w (t-3) xor w (t-8) xor w (t-14) xor w (t-16)]. *)
Fixpoint schedule (n : nat) (ws : list Z) : list Z :=
  match n with
  | O => ws
  | S n' =>
      let w := rotl32 1 (Z.lxor (Z.lxor (nth 2 ws 0) (nth 7 ws 0))
                                (Z.lxor (nth 13 ws 0) (nth 15 ws 0))) in
      schedule n' (w :: ws)
  end.

Definition state : Type := Z * Z * Z * Z * Z.

Definition round (t : Z) (st : state) (w : Z) : state :=
  let '(a, b, c, d, e) := st in
  let '(f, k) :=
    if t <? 20 then (Z.lor (Z.land b c) (Z.land (not32 b) d), 1518500249)
    else if t <? 40 then (Z.lxor (Z.lxor b c) d, 1859775393)
    else if t <? 60
         then (Z.lor (Z.lor (Z.land b c) (Z.land b d)) (Z.land c d), 2400959708)
    else (Z.lxor (Z.lxor b c) d, 3395469782) in
  let tmp := add32 (add32 (add32 (add32 (rotl32 5 a) f) e) k) w in
  (tmp, a, rotl32 30 b, c, d).

Fixpoint rounds (t : Z) (st : state) (ws : list Z) : state :=
  match ws with
  | [] => st
  | w :: rest => rounds (t + 1) (round t st w) rest
  end.

Definition block (st : state) (blk : list Z) : state :=
  let ws := rev (schedule 64 (rev (words blk))) in
  let '(a, b, c, d, e) := rounds 0 st ws in
  let '(h0, h1, h2, h3, h4) := st in
  (add32 h0 a, add32 h1 b, add32 h2 c, add32 h3 d, add32 h4 e).

(** The blocks of a padded message, [n] of them, 64 bytes each. *)
Fixpoint blocks (n : nat) (st : state) (l : list Z) : state :=
  match n with
  | O => st
  | S n' => blocks n' (block st (firstn 64 l)) (skipn 64 l)
  end.

Definition initial : state :=
  (1732584193, 4023233417, 2562383102, 271733878, 3285377520).

(** [sha1.Sum]: the 20 bytes of the digest. *)
Definition sha1 (msg : string) : string :=
  let padded := (bytes msg ++ padding (len msg))%list in
  let '(h0, h1, h2, h3, h4) :=
    blocks (length padded / 64) initial padded in
  string_of_list_ascii
    (Zbyte <$> (bigEndian 4 h0 ++ bigEndian 4 h1 ++ bigEndian 4 h2
                ++ bigEndian 4 h3 ++ bigEndian 4 h4)%list).

(** The hash object of [sha1.New]: [Write] appends to the message, [Sum]
    hashes what was written. *)
Definition New : string := "".
Definition Write (h : string) (p : string) : string := h +:+ p.
Definition Sum (h : string) : string := sha1 h.

(** The alphabet of [base64.StdEncoding]. *)
Definition encodeStd : string :=
  "ABCDEFGHIJKLMNOPQRSTUVWXYZabcdefghijklmnopqrstuvwxyz0123456789+/".

Definition sextet (v : Z) : ascii :=
  match String.get (Z.to_nat (v mod 64)) encodeStd with
  | Some c => c
  | None => "="%char
  end.

Definition isByte (x : Z) : Prop := 0 <= x < 256.

(** The place of a character in the alphabet. *)
Definition unsextet (c : ascii) : Z := Index encodeStd (String c "").

(** [EncodeToString]: three bytes give four characters; one or two bytes
    left over give two or three characters and padding. *)
Fixpoint encode (l : list Z) : string :=
  match l with
  | a :: b :: c :: rest =>
      let val := Z.shiftl a 16 + Z.shiftl b 8 + c in
      String (sextet (Z.shiftr val 18)) (String (sextet (Z.shiftr val 12))
        (String (sextet (Z.shiftr val 6)) (String (sextet val) (encode rest))))
  | [a; b] =>
      let val := Z.shiftl a 16 + Z.shiftl b 8 in
      String (sextet (Z.shiftr val 18)) (String (sextet (Z.shiftr val 12))
        (String (sextet (Z.shiftr val 6)) "="))
  | [a] =>
      let val := Z.shiftl a 16 in
      String (sextet (Z.shiftr val 18)) (String (sextet (Z.shiftr val 12)) "==")
  | [] => ""
  end.

Definition EncodeToString (src : string) : string := encode (bytes src).

(** Hexadecimal rendering, to compare digests with published test vectors. *)
Definition hexDigit (v : Z) : ascii :=
  match String.get (Z.to_nat (v mod 16)) "0123456789abcdef" with
  | Some c => c
  | None => "?"%char
  end.

Fixpoint hex (s : string) : string :=
  match s with
  | EmptyString => EmptyString
  | String c t =>
      String (hexDigit (byteZ c / 16)) (String (hexDigit (byteZ c)) (hex t))
  end.

End Crypto.

(** ** soap.go: digest, envelope and transport *)

Module Soap.
Import Crypto.

Record Client := {
  Username : string;
  Password : string;
  Timeout : Z;          (* a [time.Duration], in nanoseconds *)
  InsecureTLS : bool
}.

(** The verb [%d] of [fmt]. *)
Definition formatInt (x : Z) : string := NilZero.string_of_int (Z.to_int x).

(** The digest of [generatePasswordDigest] for given nonce bytes, creation
    time and password: what is written to the hash, summed and encoded. *)
Definition passwordDigest (nonceBytes created password : string) : string :=
  let h := New in
  let h := Write h nonceBytes in
  let h := Write h created in
  let h := Write h password in
  EncodeToString (Sum h).

(** [generatePasswordDigest] creates the WS-Security password digest.  The
    two readings of the clock are arguments: [created] is
    [time.Now().UTC().Format("2006-01-02T15:04:05.000Z")] and [unixNano] is
    [time.Now().UnixNano()]. *)
Definition generatePasswordDigest (created : string) (unixNano : Z)
  (username password : string) : string * string * string :=
  let nonce := formatInt unixNano in
  let nonceBytes := nonce in
  let nonceB64 := EncodeToString nonceBytes in
  let digest := passwordDigest nonceBytes created password in
  (digest, nonceB64, created).

(** The first [fmt.Sprintf] of [sendSOAPRequest]. *)
Definition securityHeader (username digest nonce created : string) : string :=
  nl +:+ tab +:+ tab
  +:+ "<Security xmlns="
  +:+ quoted "http://docs.oasis-open.org/wss/2004/01/oasis-200401-wss-wssecurity-secext-1.0.xsd"
  +:+ ">" +:+ nl +:+ tab +:+ tab +:+ tab
  +:+ "<UsernameToken>" +:+ nl +:+ tab +:+ tab +:+ tab +:+ tab
  +:+ "<Username>" +:+ username +:+ "</Username>"
  +:+ nl +:+ tab +:+ tab +:+ tab +:+ tab
  +:+ "<Password Type="
  +:+ quoted "http://docs.oasis-open.org/wss/2004/01/oasis-200401-wss-username-token-profile-1.0#PasswordDigest"
  +:+ ">" +:+ digest +:+ "</Password>"
  +:+ nl +:+ tab +:+ tab +:+ tab +:+ tab
  +:+ "<Nonce EncodingType="
  +:+ quoted "http://docs.oasis-open.org/wss/2004/01/oasis-200401-wss-soap-message-security-1.0#Base64Binary"
  +:+ ">" +:+ nonce +:+ "</Nonce>"
  +:+ nl +:+ tab +:+ tab +:+ tab +:+ tab
  +:+ "<Created xmlns="
  +:+ quoted "http://docs.oasis-open.org/wss/2004/01/oasis-200401-wss-wssecurity-utility-1.0.xsd"
  +:+ ">" +:+ created +:+ "</Created>"
  +:+ nl +:+ tab +:+ tab +:+ tab
  +:+ "</UsernameToken>" +:+ nl +:+ tab +:+ tab
  +:+ "</Security>".

(** The text of the envelope before the content of the header, between
    header and body, and after the body. *)
Definition envelopeOpen : string :=
  "<?xml version=" +:+ quoted "1.0" +:+ " encoding=" +:+ quoted "UTF-8"
  +:+ "?>" +:+ nl
  +:+ "<s:Envelope xmlns:s=" +:+ quoted "http://www.w3.org/2003/05/soap-envelope"
  +:+ nl +:+ "            xmlns:tds="
  +:+ quoted "http://www.onvif.org/ver10/device/wsdl"
  +:+ nl +:+ "            xmlns:trt="
  +:+ quoted "http://www.onvif.org/ver10/media/wsdl"
  +:+ nl +:+ "            xmlns:tt="
  +:+ quoted "http://www.onvif.org/ver10/schema"
  +:+ nl +:+ "            xmlns:timg="
  +:+ quoted "http://www.onvif.org/ver20/imaging/wsdl"
  +:+ nl +:+ "            xmlns:tr2="
  +:+ quoted "http://www.onvif.org/ver20/media/wsdl"
  +:+ ">" +:+ nl +:+ tab +:+ "<s:Header>".

Definition envelopeMiddle : string :=
  "</s:Header>" +:+ nl +:+ tab +:+ "<s:Body>".

Definition envelopeClose : string :=
  "</s:Body>" +:+ nl +:+ "</s:Envelope>".

(** The second [fmt.Sprintf] of [sendSOAPRequest]. *)
Definition envelope (authHeader body : string) : string :=
  envelopeOpen +:+ authHeader +:+ envelopeMiddle +:+ body +:+ envelopeClose.

(** The envelope that [sendSOAPRequest] builds and posts. *)
Definition soapRequest (c : Client) (created : string) (unixNano : Z)
  (body : string) : string :=
  let '(digest, nonce, created) :=
    generatePasswordDigest created unixNano (Username c) (Password c) in
  let authHeader := "" in
  let authHeader :=
    if negb (String.eqb (Username c) "")
    then securityHeader (Username c) digest nonce created
    else authHeader in
  envelope authHeader body.

(** The request handed to [client.Do]. *)
Record Request := {
  Method : string;
  URL : string;
  ContentType : string;
  SOAPAction : string;
  Body : string;
  ClientTimeout : Z;
  InsecureSkipVerify : bool
}.

(** What becomes of a request: [http.NewRequest], [client.Do] or
    [io.ReadAll] fails with an error, or a response with a status code and
    a body has been read. *)
Inductive Exchange :=
| NewRequestFails (err : string)
| DoFails (err : string)
| ReadAllFails (err : string)
| Response (StatusCode : Z) (respBody : string).

(** The outside world of one call: the two clock readings, the fate of the
    request, and the table [http.StatusText] of the standard library. *)
Record World := {
  created : string;
  unixNano : Z;
  exchange : Request → Exchange;
  StatusText : Z → string
}.

Definition second : Z := 1000000000.

(** The request that [sendSOAPRequest] prepares: the envelope, the two
    headers, and the settings of the [http.Client]. *)
Definition newRequest (w : World) (c : Client)
  (endpoint action body : string) : Request :=
  let soapRequest := soapRequest c (created w) (unixNano w) body in
  let timeout := Timeout c in
  let timeout := if timeout =? 0 then 10 * second else timeout in
  {| Method := "POST"; URL := endpoint;
     ContentType := "application/soap+xml; charset=utf-8";
     SOAPAction := action; Body := soapRequest;
     ClientTimeout := timeout;
     InsecureSkipVerify := InsecureTLS c |}.

(** [sendSOAPRequest] sends a SOAP request to an ONVIF device.  The result
    is the pair of the body ([None] for [nil]) and the error ([None] for
    [nil]). *)
Definition sendSOAPRequest (w : World) (c : Client)
  (endpoint action body : string) : option string * option string :=
  match exchange w (newRequest w c endpoint action body) with
  | NewRequestFails err => (None, Some err)
  | DoFails err => (None, Some err)
  | ReadAllFails err => (None, Some err)
  | Response StatusCode respBody =>
      if StatusCode >=? 400 then
        if len respBody =? 0
        then (None, Some ("HTTP " +:+ formatInt StatusCode
                          +:+ " with empty response"))
        else (Some respBody,
              Some ("HTTP " +:+ formatInt StatusCode +:+ ": "
                    +:+ StatusText w StatusCode))
      else (Some respBody, None)
  end.

(** [CreateUsers], as every caller of [sendSOAPRequest] proceeds: an error
    of the transport is wrapped and returned before the response is looked
    at; only without it the fault classifier runs. *)
Definition CreateUsers (w : World) (c : Client) (camera : Camera)
  (users : list Faults.User) : option string :=
  let address := getFirstAddress (Address camera) in
  let '(resp, err) :=
    sendSOAPRequest w c address
      "http://www.onvif.org/ver10/device/wsdl/CreateUsers"
      (Faults.createUsersBody users) in
  match err with
  | Some err => Some ("failed to create users: " +:+ err)
  | None =>
      match Faults.parseSOAPFault (default "" resp) with
      | Some err => Some err
      | None => None
      end
  end.

(** A device that answers every request with status 401 and no body. *)
Definition unauthorized : World :=
  {| created := "2024-05-01T10:20:30.123Z";
     unixNano := 1714558830123456789;
     exchange := fun _ => Response 401 "";
     StatusText := fun _ => "Unauthorized" |}.

(** A device that answers every request with status 500 and a fault. *)
Definition failing : World :=
  {| created := "2024-05-01T10:20:30.123Z";
     unixNano := 1714558830123456789;
     exchange := fun _ => Response 500 Faults.scenarioC;
     StatusText := fun _ => "Internal Server Error" |}.

Definition admin : Client :=
  {| Username := "admin"; Password := "secret"; Timeout := 0;
     InsecureTLS := false |}.

Definition anonymous : Client :=
  {| Username := ""; Password := ""; Timeout := 0; InsecureTLS := false |}.

End Soap.

(** * Further functions of the package *)

(** ** client.go *)

Module ClientInfo.

(** A string without white space. *)
Fixpoint noSpace (s : string) : bool :=
  match s with
  | EmptyString => true
  | String c t => negb (isSpace c) && noSpace t
  end.

(** [NewClient] creates a new ONVIF client with credentials. *)
Definition NewClient (username password : string) : Soap.Client :=
  {| Soap.Username := username; Soap.Password := password;
     Soap.Timeout := 10 * Soap.second; Soap.InsecureTLS := false |}.

(** [NewClientWithTimeout] creates a new ONVIF client with custom timeout. *)
Definition NewClientWithTimeout (username password : string) (timeout : Z)
  : Soap.Client :=
  {| Soap.Username := username; Soap.Password := password;
     Soap.Timeout := timeout; Soap.InsecureTLS := false |}.

(** [GetDisplayName] returns the best available name for the camera. *)
Definition GetDisplayName (camera : Camera) : string :=
  if negb (String.eqb (Manufacturer camera) "")
     && negb (String.eqb (DeviceModel camera) "")
  then Manufacturer camera +:+ " " +:+ DeviceModel camera
  else if negb (String.eqb (Hostname camera) "") then Hostname camera
  else if negb (String.eqb (Name camera) "") then Name camera
  else if negb (String.eqb (Model camera) "") then Model camera
  else getFirstAddress (Address camera).

End ClientInfo.

(** ** discovery.go: [parseProfiles] *)

Module Profiles.

(** One iteration of the loop of [parseProfiles]: the [switch] appends the
    tag of the first case that the trimmed token satisfies. *)
Definition profileStep (profiles : list string) (t : string) : list string :=
  let t := TrimSpace t in
  if Contains t "NetworkVideoTransmitter"
  then (profiles ++ ["Network Video Transmitter"])%list
  else if Contains t "Device" then (profiles ++ ["Device"])%list
  else if Contains t "Media" then (profiles ++ ["Media"])%list
  else if Contains t "PTZ" then (profiles ++ ["PTZ"])%list
  else if Contains t "Analytics" then (profiles ++ ["Analytics"])%list
  else if Contains t "Events" then (profiles ++ ["Events"])%list
  else if Contains t "Imaging" then (profiles ++ ["Imaging"])%list
  else if Contains t "Recording" then (profiles ++ ["Recording"])%list
  else if Contains t "Replay" then (profiles ++ ["Replay"])%list
  else profiles.

Definition parseProfiles (types : string) : list string :=
  let typeList := Split types " " in
  fold_left profileStep typeList [].

(** The tags that [parseProfiles] can give. *)
Definition profileTags : list string :=
  ["Network Video Transmitter"; "Device"; "Media"; "PTZ"; "Analytics";
   "Events"; "Imaging"; "Recording"; "Replay"].

End Profiles.

(** ** User management: the scan for user records *)

Module Users.
Import Faults.

(** The test [s[i] == c] for an index within the string. *)
Definition isByteAt (s : string) (i : Z) (c : ascii) : bool :=
  match at_ s i with
  | Some x => Ascii.eqb x c
  | None => false
  end.

(** The loop [for i := idx - 1; i >= 0 && i > idx-20; i--] of
    [findTagOpen], which returns [i] at a "<" that does not start a closing
    tag; [-1] when the loop ends without returning. *)
Fixpoint openWalk (fuel : nat) (s : string) (idx i : Z) : Z :=
  match fuel with
  | O => -1
  | S fuel' =>
      if (0 <=? i) && (idx - 20 <? i)
      then if isByteAt s i "<"
              && ((len s <=? i + 1) || negb (isByteAt s (i + 1) "/"))
           then i
           else openWalk fuel' s idx (i - 1)
      else -1
  end.

(** [findTagOpen] finds the start of an opening XML tag with any namespace
    prefix. *)
Definition findTagOpen (s localName : string) : Z :=
  let marker := ":" +:+ localName +:+ ">" in
  let idx := Index s marker in
  let found := if negb (idx =? -1) then openWalk 20 s idx (idx - 1) else -1 in
  if negb (found =? -1) then found
  else
    let marker := ":" +:+ localName +:+ " " in
    let idx := Index s marker in
    let found := if negb (idx =? -1) then openWalk 20 s idx (idx - 1) else -1 in
    if negb (found =? -1) then found
    else firstIndex s ["<" +:+ localName +:+ ">"; "<" +:+ localName +:+ " "].

(** The inner loop [for j := pos - 1; j >= 0 && j > pos-20; j--] of
    [findTagClose]: whether it meets "</". *)
Fixpoint closeWalk (fuel : nat) (s : string) (pos j : Z) : bool :=
  match fuel with
  | O => false
  | S fuel' =>
      if (0 <=? j) && (pos - 20 <? j)
      then if isByteAt s j "<" && (j + 1 <? len s) && isByteAt s (j + 1) "/"
           then true
           else closeWalk fuel' s pos (j - 1)
      else false
  end.

(** The outer loop [for i := 0; i < len(s); ] of [findTagClose], from [i]:
    the offset it returns, or [-1] when it ends without returning.  Every
    round moves [i] forward, so the length of [s] bounds the rounds. *)
Fixpoint closeScan (fuel : nat) (s marker : string) (i : Z) : Z :=
  match fuel with
  | O => -1
  | S fuel' =>
      if i <? len s then
        let idx := Index (from s i) marker in
        if idx =? -1 then -1
        else
          let pos := i + idx in
          if closeWalk 20 s pos (pos - 1) then pos + len marker
          else closeScan fuel' s marker (pos + len marker)
      else -1
  end.

(** [findTagClose] finds the end of a closing XML tag with any namespace
    prefix, returning the offset from the start of the search string. *)
Definition findTagClose (s localName : string) : Z :=
  let marker := ":" +:+ localName +:+ ">" in
  let found := closeScan (String.length s) s marker 0 in
  if negb (found =? -1) then found
  else
    let closeTag := "</" +:+ localName +:+ ">" in
    let idx := Index s closeTag in
    if negb (idx =? -1) then idx + len closeTag else -1.

(** The fallback loop of [GetUsers] over the rest [respStr] of the
    response: one user record per round. *)
Fixpoint usersLoop (fuel : nat) (respStr : string) (users : list User)
  : list User :=
  match fuel with
  | O => users
  | S fuel' =>
      let userStart := findTagOpen respStr "User" in
      if userStart =? -1 then users
      else
        let userEnd := findTagClose (from respStr userStart) "User" in
        if userEnd =? -1 then users
        else
          let userXML := slice respStr userStart (userStart + userEnd) in
          let user :=
            {| Username := extractBetweenTags userXML "Username";
               Password := "";
               Level := MkUserLevel (extractBetweenTags userXML "UserLevel") |} in
          let users :=
            if negb (String.eqb (Username user) "")
            then (users ++ [user])%list else users in
          usersLoop fuel' (from respStr (userStart + userEnd)) users
  end.

(** [GetUsers] retrieves all users from the camera.  [unmarshal] stands for
    [xml.Unmarshal] into the response structure: [None] when it fails, else
    the user name and level of every [User] element it finds.  The result
    is the list of users ([[]] for [nil]) and the error. *)
Definition GetUsers (w : Soap.World)
  (unmarshal : string → option (list (string * string)))
  (c : Soap.Client) (camera : Camera) : list User * option string :=
  let address := getFirstAddress (Address camera) in
  let '(resp, err) :=
    Soap.sendSOAPRequest w c address
      "http://www.onvif.org/ver10/device/wsdl/GetUsers" "<tds:GetUsers/>" in
  match err with
  | Some err => ([], Some ("failed to get users: " +:+ err))
  | None =>
      let resp := default "" resp in
      match parseSOAPFault resp with
      | Some err => ([], Some err)
      | None =>
          match unmarshal resp with
          | Some (u :: us) =>
              ((λ u, {| Username := u.1; Password := "";
                        Level := MkUserLevel u.2 |}) <$> (u :: us), None)
          | _ =>
              let users := usersLoop (String.length resp) resp [] in
              if (Z.of_nat (length users) =? 0) && Contains resp "Username>"
              then ([], Some "failed to parse GetUsers response")
              else (users, None)
          end
      end
  end.

(** A response with two user records, written with prefixes and without. *)
Definition usersPrefixed : string :=
  "<tds:GetUsersResponse><tds:User><tt:Username>admin</tt:Username><tt:UserLevel>Administrator</tt:UserLevel></tds:User><tds:User><tt:Username>guest</tt:Username><tt:UserLevel>User</tt:UserLevel></tds:User></tds:GetUsersResponse>".

Definition usersPlain : string :=
  "<GetUsersResponse><User><Username>admin</Username><UserLevel>Administrator</UserLevel></User><User><Username>guest</Username><UserLevel>User</UserLevel></User></GetUsersResponse>".

End Users.


(** ** Service addresses derived from the device address *)

Module Urls.

(** [resolveMediaURL]: the media service URL discovered by GetCapabilities
    if there is one, else the device service address with its path
    replaced. *)
Definition resolveMediaURL (camera : Camera) : string :=
  if negb (String.eqb (MediaURL camera) "") then MediaURL camera
  else
    let address := getFirstAddress (Address camera) in
    let mediaURL := Replace address "/device_service" "/media_service" 1 in
    if negb (Contains mediaURL "media_service")
    then Replace address "/onvif/device_service" "/onvif/media_service" 1
    else mediaURL.

(** [getMedia2URL] converts a device service URL to the Media2 service
    URL. *)
Definition getMedia2URL (address : string) : string :=
  let url := Replace address "/device_service" "/media2" 1 in
  if negb (Contains url "media2")
  then Replace address "/onvif/device_service" "/onvif/media2" 1
  else url.

(** [resolveImagingURL]: the imaging service URL of a camera. *)
Definition resolveImagingURL (camera : Camera) : string :=
  if negb (String.eqb (ImagingURL camera) "") then ImagingURL camera
  else
    let address := getFirstAddress (Address camera) in
    let url := Replace address "/device_service" "/imaging" 1 in
    if negb (Contains url "imaging")
    then Replace address "/onvif/device_service" "/onvif/imaging" 1
    else url.

End Urls.

(** ** On-screen display configurations *)

Module Osd.
Import Faults Urls.

Record OSDConfig := {
  Token : string;
  Type_ : string;
  VideoSourceToken : string;
}.

(** The marker of the fallback scan: [token=] and a double quote. *)
Definition tokenMarker : string := "token=" +:+ quote.

(** The fallback loop of [GetOSDs]: each turn looks for the next marker,
    reads up to the next double quote, keeps the token if it contains
    [OSD] or [osd], and goes on from that double quote.  [fuel] bounds the
    number of turns. *)
Fixpoint osdLoop (fuel : nat) (remaining : string) (configs : list OSDConfig)
  : list OSDConfig :=
  match fuel with
  | O => configs
  | S fuel =>
      let idx := Index remaining tokenMarker in
      if idx =? -1 then configs
      else
        let start := idx + len tokenMarker in
        let end_ := Index (from remaining start) quote in
        if end_ =? -1 then configs
        else
          let token := slice remaining start (start + end_) in
          let configs :=
            if Contains token "OSD" || Contains token "osd"
            then (configs ++ [{| Token := token; Type_ := "";
                                 VideoSourceToken := "" |}])%list
            else configs in
          osdLoop fuel (from remaining (start + end_)) configs
  end.

(** [GetOSDs] retrieves all OSD configurations from the camera.
    [unmarshal] stands for [xml.Unmarshal] into the response structure:
    [None] when it fails, else the token, video source configuration token
    and type of every [OSD] element it finds. *)
Definition GetOSDs (w : Soap.World)
  (unmarshal : string → option (list (string * string * string)))
  (c : Soap.Client) (camera : Camera) : list OSDConfig * option string :=
  let address := getFirstAddress (Address camera) in
  let media2URL := getMedia2URL address in
  let '(resp, err) :=
    Soap.sendSOAPRequest w c media2URL
      "http://www.onvif.org/ver20/media/wsdl/GetOSDs" "<tr2:GetOSDs/>" in
  match err with
  | Some err => ([], Some ("failed to get OSDs: " +:+ err))
  | None =>
      let resp := default "" resp in
      match parseSOAPFault resp with
      | Some err => ([], Some err)
      | None =>
          match unmarshal resp with
          | Some (o :: os) =>
              ((λ osd, {| Token := osd.1.1; Type_ := osd.2;
                          VideoSourceToken := osd.1.2 |}) <$> (o :: os),
               None)
          | _ => (osdLoop (String.length resp) resp [], None)
          end
      end
  end.

(** What one round of the loop keeps. *)
Definition keepToken (token : string) : list OSDConfig :=
  if Contains token "OSD" || Contains token "osd"
  then [{| Token := token; Type_ := ""; VideoSourceToken := "" |}]
  else [].

(** What the scan collects. *)
Definition scanned (o : OSDConfig) : Prop :=
  (Contains (Token o) "OSD" = true ∨ Contains (Token o) "osd" = true)
  ∧ occurrences "034" (Token o) = O
  ∧ Type_ o = "" ∧ VideoSourceToken o = "".

(** A response that the fallback scan reads. *)
Definition osdsResponse : string :=
  "<tr2:GetOSDsResponse><tr2:OSDs token=" +:+ quoted "OSD_1" +:+
  "><tt:VideoSourceConfigurationToken>" +:+
  "vsc_1</tt:VideoSourceConfigurationToken></tr2:OSDs>" +:+
  "<tr2:OSDs token=" +:+ quoted "osd_time" +:+
  "></tr2:OSDs></tr2:GetOSDsResponse>".

End Osd.

(** ** Choice of the sub stream *)

Module Streams.

Record StreamConfig := {
  ProfileName : string;
  ProfileToken : string;
  Resolution : string;
  Framerate : Z;
  Bitrate : Z;
  Encoding : string;
  StreamURI : string;
  Quality : string;
}.

(** The test of the loop of [UpdateSubStream] at index [i]; [ToLower] is
    [strings.ToLower]. *)
Definition isSubAt (ToLower : string → string) (streams : list StreamConfig)
  (i : nat) (s : StreamConfig) : bool :=
  String.eqb (Quality s) "Sub"
  || ((2 <=? Z.of_nat (length streams)) && (i =? 1)%nat)
  || Contains (ToLower (ProfileName s)) "stream2".

(** The loop [for i := range streams] from index [i] on: the first stream
    that passes the test. *)
Fixpoint subStreamFrom (ToLower : string → string)
  (streams : list StreamConfig) (i : nat) (rest : list StreamConfig)
  : option StreamConfig :=
  match rest with
  | [] => None
  | s :: rest =>
      if isSubAt ToLower streams i s then Some s
      else subStreamFrom ToLower streams (S i) rest
  end.

(** [UpdateSubStream] finds the sub stream and updates it.  The result of
    [GetStreamProfiles] and the call of [UpdateStreamConfiguration] on an
    encoder token are passed in. *)
Definition UpdateSubStream (ToLower : string → string)
  (GetStreamProfiles : list StreamConfig * option string)
  (UpdateStreamConfiguration : string → option string) : option string :=
  let '(streams, err) := GetStreamProfiles in
  match err with
  | Some err => Some ("failed to get stream profiles: " +:+ err)
  | None =>
      match subStreamFrom ToLower streams 0 streams with
      | None => Some "no sub stream found"
      | Some subStream =>
          let encoderToken :=
            Replace (ProfileToken subStream) "profile" "videoencoder_config" 1
          in
          UpdateStreamConfiguration encoderToken
      end
  end.

End Streams.
(** * Part II: properties *)

(** ** Sanity checks of the [strings] model against the Go documentation *)

Example Fields_two : Fields "  http://a/x   http://b/y " = ["http://a/x"; "http://b/y"].
Proof. reflexivity. Qed.

Example Fields_blank : Fields "  " = [].
Proof. reflexivity. Qed.

Example Split_spaces : Split "a  b " " " = ["a"; ""; "b"; ""].
Proof. reflexivity. Qed.

Example Split_empty : Split "" " " = [""].
Proof. reflexivity. Qed.

Example Replace_first : Replace "a_b_c" "_" " " 1 = "a b_c".
Proof. reflexivity. Qed.

Example Replace_all : Replace "a_b_c" "_" " " (-1) = "a b c".
Proof. reflexivity. Qed.

Example Replace_word : Replace "xxabxxab" "xab" "" 1 = "xxxab".
Proof. reflexivity. Qed.

Example Index_found : Index "chicken" "ken" = 4.
Proof. reflexivity. Qed.

Example Index_missing : Index "chicken" "dmr" = -1.
Proof. reflexivity. Qed.

Example TrimSpace_both : TrimSpace "  a b  " = "a b".
Proof. reflexivity. Qed.

(** ** Byte strings *)

Section StringFacts.

Lemma append_nil_r (s : string) : s +:+ "" = s.
Proof. induction s as [|c s IH]; simpl; [done|by rewrite IH]. Qed.

Lemma append_assoc (a b c : string) : (a +:+ b) +:+ c = a +:+ (b +:+ c).
Proof. induction a as [|x a IH]; simpl; [done|by rewrite IH]. Qed.

Lemma append_length (a b : string) :
  String.length (a +:+ b) = (String.length a + String.length b)%nat.
Proof. induction a as [|x a IH]; simpl; [done|by rewrite IH]. Qed.

Lemma expand_app f (a b : string) :
  expand f (a +:+ b) = expand f a +:+ expand f b.
Proof.
  induction a as [|x a IH]; simpl; [done|]. by rewrite IH, append_assoc.
Qed.

Lemma HasPrefix_app (p s : string) : HasPrefix (p +:+ s) p = true.
Proof.
  induction p as [|x p IH]; simpl; [done|]. by rewrite Ascii.eqb_refl, IH.
Qed.

Lemma HasPrefix_inv (s p : string) :
  HasPrefix s p = true → ∃ t, s = p +:+ t.
Proof.
  revert s. induction p as [|x p IH]; intros s; simpl.
  - intros _. by exists s.
  - destruct s as [|c s]; [done|].
    intros [Hc Hp]%andb_true_iff. apply Ascii.eqb_eq in Hc as ->.
    destruct (IH _ Hp) as [t ->]. by exists t.
Qed.

(** An occurrence found in a suffix is an occurrence in the string. *)
Lemma index_nat_drop (n : nat) (s p : string) :
  is_Some (index_nat (drop n s) p) → is_Some (index_nat s p).
Proof.
  revert s. induction n as [|n IH]; intros s; [done|].
  destruct s as [|c s]; [done|]. simpl drop. intros H%IH.
  destruct H as [j Hj]. cbn [index_nat]. rewrite Hj.
  destruct (HasPrefix (String c s) p); by eexists.
Qed.

Lemma Index_found_iff (s p : string) :
  Index s p ≠ -1 ↔ is_Some (index_nat s p).
Proof.
  unfold Index. destruct (index_nat s p) as [n|].
  - split; [by eexists|lia].
  - split; [done|by intros [? [=]]].
Qed.

Lemma Contains_false (s p : string) :
  Contains s p = false ↔ Index s p = -1.
Proof.
  unfold Contains, Index. destruct (index_nat s p) as [n|].
  - split; [intros H%Z.leb_gt; lia|lia].
  - done.
Qed.

Lemma Index_from (s p : string) (i : Z) :
  Index s p = -1 → Index (from s i) p = -1.
Proof.
  intros H. destruct (decide (Index (from s i) p = -1)) as [|Hne]; [done|].
  apply Index_found_iff in Hne. apply index_nat_drop in Hne.
  apply Index_found_iff in Hne. done.
Qed.

Lemma HasPrefix_take (n : nat) (s p : string) :
  HasPrefix (take n s) p = true → HasPrefix s p = true.
Proof.
  revert n s. induction p as [|x p IH]; intros n s; [done|].
  destruct n as [|n], s as [|c s]; simpl; try done.
  intros [Hc Hp]%andb_true_iff. rewrite Hc. simpl. by eapply IH.
Qed.

(** An occurrence found in a prefix is an occurrence in the string. *)
Lemma index_nat_take (n : nat) (s p : string) :
  is_Some (index_nat (take n s) p) → is_Some (index_nat s p).
Proof.
  revert n. induction s as [|c s IH]; intros n.
  - by destruct n.
  - destruct n as [|n].
    + simpl take. cbn [index_nat].
      destruct (HasPrefix "" p) eqn:E; [|by intros [? [=]]].
      intros _. apply (HasPrefix_take 0 (String c s)) in E. rewrite E.
      by eexists.
    + simpl take. cbn [index_nat].
      destruct (HasPrefix (String c (take n s)) p) eqn:E.
      * intros _. apply (HasPrefix_take (S n) (String c s)) in E.
        rewrite E. by eexists.
      * intros H. destruct (index_nat (take n s) p) as [j|] eqn:Ej;
          [|by destruct H as [? [=]]].
        destruct (IH n) as [j' Hj']; [by rewrite Ej; eexists|].
        rewrite Hj'. destruct (HasPrefix (String c s) p); by eexists.
Qed.

Lemma Index_slice (s p : string) (i j : Z) :
  Index s p = -1 → Index (slice s i j) p = -1.
Proof.
  intros H. destruct (decide (Index (slice s i j) p = -1)) as [|Hne]; [done|].
  apply Index_found_iff in Hne. unfold slice in Hne.
  apply index_nat_take, index_nat_drop in Hne.
  apply Index_found_iff in Hne. done.
Qed.

End StringFacts.

(** The published test vectors of SHA-1 (FIPS 180) and Base64 (RFC 4648). *)
Example sha1_abc :
  Crypto.hex (Crypto.sha1 "abc") = "a9993e364706816aba3e25717850c26c9cd0d89d".
Proof. vm_compute. reflexivity. Qed.

Example sha1_empty :
  Crypto.hex (Crypto.sha1 "") = "da39a3ee5e6b4b0d3255bfef95601890afd80709".
Proof. vm_compute. reflexivity. Qed.

Example sha1_two_blocks :
  Crypto.hex
    (Crypto.sha1 "abcdbcdecdefdefgefghfghighijhijkijkljklmklmnlmnomnopnopq")
  = "84983e441c3bd26ebaae4aa1f95129e5e54670f1".
Proof. vm_compute. reflexivity. Qed.

Example base64_vectors :
  Crypto.EncodeToString <$> [""; "f"; "fo"; "foo"; "foob"; "fooba"; "foobar"]
  = [""; "Zg=="; "Zm8="; "Zm9v"; "Zm9vYg=="; "Zm9vYmE="; "Zm9vYmFy"].
Proof. vm_compute. reflexivity. Qed.

Example formatInt_examples :
  Soap.formatInt <$> [401; 0; -12; 1714558830123456789]
  = ["401"; "0"; "-12"; "1714558830123456789"].
Proof. vm_compute. reflexivity. Qed.

(** ** De-duplication of discovered cameras *)

Section Dedup.
Import Discovery.

(** A field is never empty. *)
Lemma fieldsFrom_nonempty (s cur : string) :
  Forall (λ t, t ≠ "") (fieldsFrom cur s).
Proof.
  revert cur. induction s as [|c s IH]; intros cur; simpl.
  - destruct (String.eqb_spec cur ""); by repeat constructor.
  - destruct (isSpace c); [|apply IH].
    destruct (String.eqb_spec cur ""); [apply IH|].
    constructor; [done|apply IH].
Qed.

Lemma keyOf_nonempty (c : Camera) : keyOf c ≠ Some "".
Proof.
  unfold keyOf, Fields. pose proof (fieldsFrom_nonempty (Address c) "") as H.
  destruct (fieldsFrom "" (Address c)) as [|k ks]; [done|].
  inversion H; subst. simpl. congruence.
Qed.

Lemma dedupInsert_Done m c m' :
  dedupInsert m c = Done m' →
  ∃ k, keyOf c = Some k ∧
       m' = match m !! k with Some _ => m | None => <[k := c]> m end.
Proof.
  unfold dedupInsert, keyOf. destruct (Fields (Address c)) as [|k ks]; simpl.
  - discriminate.
  - intros [= <-]. eauto.
Qed.



(** The map built by the first loop, entry by entry. *)
Lemma dedupLoop_lookup cams : ∀ m0 m k,
  dedupLoop cams m0 = Done m →
  m !! k = match m0 !! k with Some c => Some c | None => firstSeen k cams end.
Proof.
  induction cams as [|c cams IH]; intros m0 m k; simpl.
  - intros [= <-]. by destruct (m0 !! k).
  - destruct (dedupInsert m0 c) as [m1|] eqn:E; simpl; [|discriminate].
    intros H. rewrite (IH _ _ k H).
    apply dedupInsert_Done in E as (k1 & Hk1 & ->).
    destruct (decide (keyOf c = Some k)) as [Hk|Hk].
    + assert (k1 = k) as -> by congruence.
      destruct (m0 !! k) eqn:E0; [by rewrite E0|]. by rewrite lookup_insert_eq.
    + assert (k1 ≠ k) by congruence.
      destruct (m0 !! k1) eqn:E1; [done|]. by rewrite lookup_insert_ne.
Qed.



Lemma firstSeen_Some k cams c :
  firstSeen k cams = Some c → c ∈ cams ∧ keyOf c = Some k.
Proof.
  induction cams as [|c' cams IH]; simpl; [done|].
  destruct (decide (keyOf c' = Some k)).
  - intros [= ->]. split; [apply elem_of_cons; by left|done].
  - intros H. destruct (IH H). split; [apply elem_of_cons; by right|done].
Qed.

Lemma firstSeen_None k cams :
  firstSeen k cams = None ↔ ∀ c, c ∈ cams → keyOf c ≠ Some k.
Proof.
  induction cams as [|c' cams IH]; simpl.
  - split; [|done]. intros _ c Hc. by apply elem_of_nil in Hc.
  - destruct (decide (keyOf c' = Some k)) as [Hk|Hk].
    + split; [done|]. intros H. exfalso. apply (H c'); [|done].
      apply elem_of_cons; by left.
    + rewrite IH. split.
      * intros H c [->|Hc]%elem_of_cons; auto.
      * intros H c Hc. apply H, elem_of_cons. by right.
Qed.

(** Some camera of the list is filed under [k]. *)
Lemma firstSeen_is_Some k cams :
  is_Some (firstSeen k cams) ↔ ∃ c, c ∈ cams ∧ keyOf c = Some k.
Proof.
  split.
  - intros [c Hc]. exists c. by apply firstSeen_Some.
  - intros (c & Hin & Hk). destruct (firstSeen k cams) eqn:E; [by eexists|].
    exfalso. by apply (proj1 (firstSeen_None _ _) E c).
Qed.

Lemma dedupLoop_keyed cams m : dedupLoop cams ∅ = Done m → keyed m.
Proof.
  intros H k c Hk. rewrite (dedupLoop_lookup _ _ _ k H), lookup_empty in Hk.
  by apply firstSeen_Some in Hk as [_ ?].
Qed.



(** The keys of the map are the keys of the input cameras. *)
Lemma dedupLoop_dom cams m k :
  dedupLoop cams ∅ = Done m →
  is_Some (m !! k) ↔ ∃ c, c ∈ cams ∧ keyOf c = Some k.
Proof.
  intros H. rewrite (dedupLoop_lookup _ _ _ k H), lookup_empty.
  apply firstSeen_is_Some.
Qed.

(** The cameras returned are the entries of the map. *)
Lemma elem_of_visit (order : rangeOrder) m c :
  c ∈ (order m).*2 ↔ ∃ k, m !! k = Some c.
Proof.
  rewrite list_elem_of_fmap. split.
  - intros ([k c'] & -> & Hkc). exists k. simpl.
    rewrite (visit_all order m) in Hkc. by apply elem_of_map_to_list in Hkc.
  - intros (k & Hk). exists (k, c). split; [done|].
    rewrite (visit_all order m). by apply elem_of_map_to_list.
Qed.

Lemma visit_keys (order : rangeOrder) m :
  keyed m → keyOf <$> (order m).*2 = Some <$> (order m).*1.
Proof.
  intros Hm.
  assert (Hall : ∀ kc, kc ∈ order m → keyOf kc.2 = Some kc.1).
  { intros [k c] Hkc. rewrite (visit_all order m) in Hkc.
    apply elem_of_map_to_list in Hkc. by apply Hm. }
  induction (visit order m) as [|[k c] l IH]; [done|]. simpl. f_equal.
  - apply (Hall (k, c)), elem_of_cons. by left.
  - apply IH. intros kc Hkc. apply Hall, elem_of_cons. by right.
Qed.

Lemma visit_keys_NoDup (order : rangeOrder) m :
  keyed m → NoDup (keyOf <$> (order m).*2).
Proof.
  intros Hm. rewrite (visit_keys order m Hm).
  apply NoDup_fmap_2; [intros ?? [=]; done|].
  rewrite (visit_all order m). apply NoDup_fst_map_to_list.
Qed.

End Dedup.
Section DedupClaims.
Import Discovery.



Lemma deduplicateCameras_Done (order : rangeOrder) cams out :
  deduplicateCameras order cams = Done out →
  ∃ m, dedupLoop cams ∅ = Done m ∧ out = (order m).*2.
Proof.
  unfold deduplicateCameras. destruct (dedupLoop cams ∅) as [m|]; simpl.
  - intros [= <-]. eauto.
  - discriminate.
Qed.

(** C1 (as the code behaves): a camera whose address field holds no token
    makes [deduplicateCameras] panic on [addresses[0]], alone or among
    cameras with addresses, while [getFirstAddress] guards the same index
    with a length test.  No camera is ever filed under the empty key. *)
Theorem dedup_empty_address_panics (order : rangeOrder) :
  deduplicateCameras order [replyNoAddress] =
    Panic "runtime error: index out of range [0] with length 0"
  ∧ deduplicateCameras order [replyA; replyNoAddress; replyC] =
    Panic "runtime error: index out of range [0] with length 0"
  ∧ getFirstAddress (Address replyNoAddress) = ""
  ∧ (∀ c, keyOf c ≠ Some "").
Proof. repeat split. apply keyOf_nonempty. Qed.




End DedupClaims.

(** ** SOAP faults and tag extraction *)

Section FaultClaims.
Import Faults.

(** The walk back from the marker stops by its own loop condition: more
    fuel than the 20 steps given to it changes nothing. *)
Lemma walkBack_fuel (s : string) (idx : Z) : ∀ (fuel fuel' : nat) (i : Z),
  i - (idx - 20) <= Z.of_nat fuel → i - (idx - 20) <= Z.of_nat fuel' →
  walkBack fuel s idx i = walkBack fuel' s idx i.
Proof.
  induction fuel as [|fuel IH]; intros fuel' i Hf Hf'.
  - destruct fuel' as [|fuel']; [done|]. cbn [walkBack].
    replace (idx - 20 <? i) with false by (symmetry; apply Z.ltb_ge; lia).
    by rewrite andb_false_r.
  - destruct fuel' as [|fuel'].
    + cbn [walkBack].
      replace (idx - 20 <? i) with false by (symmetry; apply Z.ltb_ge; lia).
      by rewrite andb_false_r.
    + cbn [walkBack]. destruct ((0 <=? i) && (idx - 20 <? i)); [|done].
      rewrite (IH fuel' (i - 1)) by lia. done.
Qed.

Lemma walkBack_enough (s : string) (idx : Z) (fuel : nat) :
  (20 <= fuel)%nat → walkBack fuel s idx (idx - 1) = walkBack 20 s idx (idx - 1).
Proof. intros H. apply walkBack_fuel; lia. Qed.

(** [extractTextElement] returns a text only when its argument holds one of
    the two closing tags it builds, "</" followed by ":Text>" or by
    "</Text>". *)
Lemma extractTextElement_closing_tags (s : string) :
  Contains s "</:Text>" = false → Contains s "</</Text>" = false →
  extractTextElement s = "".
Proof.
  intros H1%Contains_false H2%Contains_false. unfold extractTextElement.
  destruct (_ =? -1); [done|]. destruct (_ =? -1); [done|].
  cbn [closeText]. cbv zeta.
  change ("</" +:+ ":Text>") with "</:Text>".
  change ("</" +:+ "</Text>") with "</</Text>".
  rewrite (Index_from s "</:Text>") by done.
  rewrite (Index_from s "</</Text>") by done. reflexivity.
Qed.

(** The text handed on by [extractBetweenTags] is a piece of its argument. *)
Lemma extractBetweenTags_piece (s localName : string) :
  extractBetweenTags s localName = ""
  ∨ ∃ i j, extractBetweenTags s localName = slice s i j.
Proof.
  unfold extractBetweenTags. cbv zeta.
  repeat (match goal with |- context [if ?b then _ else _] => destruct b end;
          try (by left)); right; eauto.
Qed.

(** A fault that carries none of the known codes, neither of the two
    closing tags that [extractTextElement] builds and no [faultstring]
    element gets the generic answer, whatever its Reason and Text elements
    hold. *)
Lemma parseSOAPFault_generic (resp : string) :
  containsSOAPFault resp = true →
  Contains resp "ter:UsernameClash" = false →
  Contains resp "ter:UsernameMissing" = false →
  Contains resp "ter:TooManyUsers" = false →
  Contains resp "ter:FixedUser" = false →
  Contains resp "ter:Password" = false →
  Contains resp "NotAuthorized" = false →
  Contains resp "</:Text>" = false →
  Contains resp "</</Text>" = false →
  Contains resp "<faultstring>" = false →
  parseSOAPFault resp = Some "SOAP fault in response".
Proof.
  intros Hf H1 H2 H3 H4 H5 H6 Ht1 Ht2 Hs. unfold parseSOAPFault. cbv zeta.
  rewrite Hf, H1, H2, H3, H4, H5, H6. simpl.
  assert (Contains resp "ter:NotAuthorized" = false) as ->.
  { apply Contains_false.
    destruct (decide (Index resp "ter:NotAuthorized" = -1)) as [|Hne]; [done|].
    exfalso. apply Index_found_iff in Hne.
    apply Contains_false in H6.
    assert (is_Some (index_nat resp "NotAuthorized")) as Hs'%Index_found_iff;
      [|done].
    clear -Hne. induction resp as [|c r IH].
    - by destruct Hne as [? [=]].
    - cbn [index_nat] in Hne |- *.
      destruct (HasPrefix (String c r) "ter:NotAuthorized") eqn:E.
      + apply HasPrefix_inv in E as [t Ht]. simpl in Ht.
        injection Ht as -> ->. vm_compute. by eexists.
      + destruct (index_nat r "ter:NotAuthorized") as [j|] eqn:Ej;
          [|by destruct Hne as [? [=]]].
        destruct IH as [j' Hj']; [by eexists|]. rewrite Hj'.
        destruct (HasPrefix (String c r) "NotAuthorized"); by eexists. }
  assert (Htext : extractTextElement (extractBetweenTags resp "Reason") = "").
  { destruct (extractBetweenTags_piece resp "Reason") as [->|(i & j & ->)];
      [done|].
    apply extractTextElement_closing_tags; apply Contains_false, Index_slice;
      by apply Contains_false. }
  rewrite Htext. apply Contains_false in Hs. rewrite Hs.
  destruct (negb _); reflexivity.
Qed.

(** C3 (as the code behaves): on the fault of scenario C the Reason element
    is found, but [extractTextElement] finds no text in it, and the
    classifier falls through to its generic answer. *)
Theorem parseSOAPFault_scenarioC :
  containsSOAPFault scenarioC = true
  ∧ extractBetweenTags scenarioC "Reason"
    = "<SOAP-ENV:Text>Sender not authorized</SOAP-ENV:Text></SOAP-ENV"
  ∧ extractTextElement (extractBetweenTags scenarioC "Reason") = ""
  ∧ parseSOAPFault scenarioC = Some "SOAP fault in response"
  ∧ parseSOAPFault scenarioC_envelope = Some "SOAP fault in response".
Proof. repeat split; vm_compute; reflexivity. Qed.

(** C6 (as the code behaves): for an element written with a namespace
    prefix the text returned runs on into the closing tag, up to the colon;
    with a prefix and an attribute nothing is returned. *)
Theorem extractBetweenTags_prefixed :
  extractBetweenTags uriFragment "Uri" = "rtsp://10.0.0.5/stream1</tt"
  ∧ extractBetweenTags "<tt:Uri>rtsp://10.0.0.5/stream1</tt:Uri>" "Uri"
    = "rtsp://10.0.0.5/stream1</tt"
  ∧ extractBetweenTags "<Uri>rtsp://10.0.0.5/stream1</Uri>" "Uri"
    = "rtsp://10.0.0.5/stream1"
  ∧ extractBetweenTags
      ("<tt:Uri kind=" +:+ quoted "rtsp" +:+ ">rtsp://10.0.0.5/stream1</tt:Uri>")
      "Uri"
    = "".
Proof. repeat split; vm_compute; reflexivity. Qed.

End FaultClaims.
(** ** Escaping of user names and passwords *)

Section EscapeClaims.
Import Faults.

(** Replacing every occurrence of a one-byte pattern works byte by byte. *)
Lemma replaceFrom_byte (c : ascii) (new s : string) (n : Z) :
  n < 0 →
  replaceFrom (String c "") new O n s
  = expand (λ x, if Ascii.eqb x c then new else String x "") s.
Proof.
  revert n. induction s as [|x s IH]; intros n Hn; [done|].
  cbn [replaceFrom expand HasPrefix String.length].
  rewrite andb_true_r. replace (negb (n =? 0)) with true
    by (symmetry; apply negb_true_iff, Z.eqb_neq; lia).
  simpl andb. destruct (Ascii.eqb x c).
  - by rewrite IH by lia.
  - by rewrite IH.
Qed.

Lemma ReplaceAll_byte (c : ascii) (new s : string) :
  String.eqb (String c "") new = false →
  ReplaceAll s (String c "") new
  = expand (λ x, if Ascii.eqb x c then new else String x "") s.
Proof.
  intros Hne. unfold ReplaceAll, Replace. rewrite Hne. simpl String.eqb.
  by apply replaceFrom_byte.
Qed.

(** The five passes of [escapeXML] amount to one pass that escapes each
    byte on its own. *)
Lemma escapeXML_expand (s : string) : escapeXML s = expand escapeByte s.
Proof.
  unfold escapeXML, quote. cbv zeta. rewrite !ReplaceAll_byte by reflexivity.
  induction s as [|c s IH]; [done|].
  cbn [expand]. rewrite !expand_app, IH. f_equal.
  destruct c as [[] [] [] [] [] [] [] []]; reflexivity.
Qed.

Lemma escapeXML_cons (c : ascii) (s : string) :
  escapeXML (String c s) = escapeByte c +:+ escapeXML s.
Proof. by rewrite !escapeXML_expand. Qed.

Lemma occurrences_app (c : ascii) (a b : string) :
  occurrences c (a +:+ b) = (occurrences c a + occurrences c b)%nat.
Proof. induction a as [|x a IH]; simpl; [done|]. rewrite IH. lia. Qed.

Lemma escapeByte_markup (c x : ascii) :
  x = "<"%char ∨ x = ">"%char ∨ x = "'"%char ∨ x = "034"%char →
  occurrences x (escapeByte c) = O.
Proof.
  intros Hx. unfold escapeByte.
  destruct Hx as [-> | [-> | [-> | ->]]];
    repeat (match goal with |- context [Ascii.eqb c ?b] =>
              destruct (Ascii.eqb_spec c b) end;
            try reflexivity; simpl);
    congruence.
Qed.

Lemma escapeXML_markup (s : string) (x : ascii) :
  x = "<"%char ∨ x = ">"%char ∨ x = "'"%char ∨ x = "034"%char →
  occurrences x (escapeXML s) = O.
Proof.
  intros Hx. induction s as [|c s IH]; [done|].
  by rewrite escapeXML_cons, occurrences_app, IH, escapeByte_markup.
Qed.

(** What [escapeByte] yields: the byte itself, which is then not an
    ampersand, or an entity, whose only ampersand is its first byte. *)
Lemma escapeByte_cases (c : ascii) :
  (escapeByte c = String c "" ∧ c ≠ "&"%char)
  ∨ (∃ tl, escapeByte c = String "&" tl ∧ In (escapeByte c) entities
           ∧ occurrences "&" tl = O).
Proof.
  unfold escapeByte, entities.
  repeat (match goal with |- context [Ascii.eqb ?a ?b] =>
            destruct (Ascii.eqb_spec a b) end);
    try (right; eexists; split; [reflexivity|split; [simpl; tauto|reflexivity]]).
  by left.
Qed.

Lemma occurrences_middle (c : ascii) (pre post : string) :
  occurrences c (pre +:+ String c post) ≠ O.
Proof. rewrite occurrences_app. simpl. rewrite Ascii.eqb_refl. lia. Qed.

(** Every ampersand of the output starts an entity. *)
Lemma escapeXML_ampersand (s pre post : string) :
  escapeXML s = pre +:+ String "&" post →
  ∃ entity rest, In entity entities ∧ String "&" post = entity +:+ rest.
Proof.
  revert pre. induction s as [|c s IH]; intros pre.
  - destruct pre; discriminate.
  - rewrite escapeXML_cons.
    destruct (escapeByte_cases c) as [[-> Hc]|(tl & Htl & Hin & Hno)].
    + destruct pre as [|p pre]; simpl; intros [= Hp Hrest]; [done|].
      by eapply IH.
    + destruct pre as [|p pre].
      * simpl. intros H. exists (escapeByte c), (escapeXML s).
        split; [done|]. by rewrite <- H.
      * rewrite Htl. simpl. intros [= _ Hrest].
        (* the ampersand lies after the entity *)
        assert (∃ pre', pre = tl +:+ pre') as [pre' ->].
        { clear -Hrest Hno. revert pre Hrest.
          induction tl as [|t tl IHtl]; intros pre Hrest; [by exists pre|].
          simpl in Hno. destruct (Ascii.eqb_spec t "&"); [done|].
          destruct pre as [|p pre]; simpl in Hrest.
          - injection Hrest as Ht _. by subst.
          - injection Hrest as -> Hrest.
            destruct (IHtl Hno _ Hrest) as [pre' ->]. by exists pre'. }
        rewrite append_assoc in Hrest.
        apply String.app_inj in Hrest. by eapply IH.
Qed.

Lemma fold_writeUser (users : list User) (acc : string) :
  fold_left writeUser users acc
  = acc +:+ fold_left writeUser users "".
Proof.
  revert acc. induction users as [|u users IH]; intros acc; simpl.
  - by rewrite append_nil_r.
  - rewrite IH, (IH (writeUser "" u)). unfold writeUser. cbv zeta.
    rewrite !append_assoc. reflexivity.
Qed.

Lemma fold_writeUsername (names : list string) (acc : string) :
  fold_left writeUsername names acc
  = acc +:+ fold_left writeUsername names "".
Proof.
  revert acc. induction names as [|u names IH]; intros acc; simpl.
  - by rewrite append_nil_r.
  - rewrite IH, (IH (writeUsername "" u)). unfold writeUsername. cbv zeta.
    rewrite !append_assoc. reflexivity.
Qed.

(** Angle brackets of the [CreateUsers] body: those of its fixed tags and
    those of the user levels, which are written unescaped. *)
Lemma createUsersBody_brackets (users : list User) (x : ascii) :
  x = "<"%char ∨ x = ">"%char →
  occurrences x (createUsersBody users)
  = (2 + 8 * length users
     + list_sum ((λ u, occurrences x (levelString (Level u))) <$> users))%nat.
Proof.
  intros Hx. unfold createUsersBody. rewrite occurrences_app.
  assert (Hfold : occurrences x (fold_left writeUser users "")
    = (8 * length users
       + list_sum ((λ u, occurrences x (levelString (Level u))) <$> users))%nat).
  { induction users as [|u users IH]; [done|].
    cbn [fold_left]. rewrite fold_writeUser, occurrences_app, IH.
    unfold writeUser, quoted, quote. cbv zeta.
    rewrite !occurrences_app, !escapeXML_markup by tauto.
    cbn [fmap list_fmap list_sum length].
    destruct Hx as [-> | ->]; simpl; lia. }
  rewrite fold_writeUser, occurrences_app, Hfold.
  destruct Hx as [-> | ->]; simpl; lia.
Qed.

Lemma deleteUsersBody_brackets (names : list string) (x : ascii) :
  x = "<"%char ∨ x = ">"%char →
  occurrences x (deleteUsersBody names) = (2 + 2 * length names)%nat.
Proof.
  intros Hx. unfold deleteUsersBody. rewrite occurrences_app.
  assert (Hfold : occurrences x (fold_left writeUsername names "")
    = (2 * length names)%nat).
  { induction names as [|u names IH]; [done|].
    cbn [fold_left]. rewrite fold_writeUsername, occurrences_app, IH.
    unfold writeUsername. cbv zeta.
    rewrite !occurrences_app, !escapeXML_markup by tauto.
    destruct Hx as [-> | ->]; simpl; lia. }
  rewrite fold_writeUsername, occurrences_app, Hfold.
  destruct Hx as [-> | ->]; simpl; lia.
Qed.

Lemma setUserBody_brackets (user : User) (x : ascii) :
  x = "<"%char ∨ x = ">"%char →
  occurrences x (setUserBody user)
  = (10 + occurrences x (levelString (Level user)))%nat.
Proof.
  intros Hx. unfold setUserBody, quoted, quote, nl, tab.
  rewrite !occurrences_app, !escapeXML_markup by tauto.
  destruct Hx as [-> | ->]; simpl; lia.
Qed.

(** C10: the output of [escapeXML] holds no "<", ">", apostrophe or double
    quote, and each of its ampersands starts one of the five entities; so
    the number of angle brackets in the bodies of CreateUsers, SetUser and
    DeleteUsers does not depend on the user names and passwords. *)
Theorem escapeXML_safe (s : string) :
  occurrences "<" (escapeXML s) = O
  ∧ occurrences ">" (escapeXML s) = O
  ∧ occurrences "'" (escapeXML s) = O
  ∧ occurrences "034" (escapeXML s) = O
  ∧ (∀ pre post, escapeXML s = pre +:+ String "&" post →
       ∃ entity rest, In entity entities ∧ String "&" post = entity +:+ rest)
  ∧ (∀ users x, x = "<"%char ∨ x = ">"%char →
       occurrences x (createUsersBody users)
       = (2 + 8 * length users
          + list_sum ((λ u, occurrences x (levelString (Level u))) <$> users))%nat)
  ∧ (∀ user x, x = "<"%char ∨ x = ">"%char →
       occurrences x (setUserBody user)
       = (10 + occurrences x (levelString (Level user)))%nat)
  ∧ (∀ names x, x = "<"%char ∨ x = ">"%char →
       occurrences x (deleteUsersBody names) = (2 + 2 * length names)%nat).
Proof.
  repeat split; try (apply escapeXML_markup; tauto).
  - apply escapeXML_ampersand.
  - intros. by apply createUsersBody_brackets.
  - intros. by apply setUserBody_brackets.
  - intros. by apply deleteUsersBody_brackets.
Qed.

End EscapeClaims.
(** ** Scopes of a probe match *)

Section ScopeClaims.
Import Discovery.

Lemma replaceFrom_done (old new s : string) : replaceFrom old new O 0 s = s.
Proof. induction s as [|c s IH]; simpl; [done|by rewrite IH]. Qed.

Lemma replaceFrom_skip (old new a v : string) (n : Z) :
  replaceFrom old new (String.length a) n (a +:+ v) = replaceFrom old new O n v.
Proof. induction a as [|c a IH]; simpl; [done|by rewrite IH]. Qed.

(** Removing the first occurrence of a pattern from a text that starts with
    it leaves the rest of the text. *)
Lemma Replace_leading (old new v : string) :
  old ≠ "" → old ≠ new → Replace (old +:+ v) old new 1 = new +:+ v.
Proof.
  intros Hold Hnew. unfold Replace.
  destruct (String.eqb_spec old ""); [done|].
  destruct (String.eqb_spec old new); [done|].
  destruct old as [|c old]; [done|].
  pose proof (HasPrefix_app (String c old) v) as Hp.
  cbn [String.append] in Hp |- *. cbn [replaceFrom].
  change (negb (1 =? 0)) with true. rewrite Hp. simpl andb.
  f_equal. change (1 - 1) with 0.
  replace (String.length (String c old) - 1)%nat with (String.length old)
    by (simpl; lia).
  by rewrite replaceFrom_skip, replaceFrom_done.
Qed.

Lemma Contains_leading (p v : string) : Contains (p +:+ v) p = true.
Proof.
  unfold Contains, Index. destruct p as [|c p]; [by destruct v|].
  pose proof (HasPrefix_app (String c p) v) as Hp.
  cbn [String.append] in Hp |- *. cbn [index_nat]. by rewrite Hp.
Qed.






End ScopeClaims.
(** ** Envelope and transport *)

Section SoapClaims.
Import Soap.

Lemma HasPrefix_app_l (a b p : string) :
  HasPrefix a p = true → HasPrefix (a +:+ b) p = true.
Proof.
  intros [t ->]%HasPrefix_inv. rewrite append_assoc. apply HasPrefix_app.
Qed.

Lemma Contains_app_l (a b p : string) :
  Contains a p = true → Contains (a +:+ b) p = true.
Proof.
  unfold Contains, Index. intros H.
  assert (is_Some (index_nat a p)) as Ha.
  { destruct (index_nat a p); [by eexists|done]. }
  assert (is_Some (index_nat (a +:+ b) p)) as [j ->];
    [|apply Z.leb_le; lia].
  clear H. induction a as [|c a IH].
  - destruct Ha as [j Hj]. destruct p; [|done].
    destruct b; by eexists.
  - cbn [String.append index_nat] in Ha |- *.
    destruct (HasPrefix (String c a) p) eqn:E.
    + apply (HasPrefix_app_l _ b) in E. cbn [String.append] in E.
      rewrite E. by eexists.
    + destruct (index_nat a p) as [j|] eqn:Ej; [|by destruct Ha as [? [=]]].
      destruct IH as [j' Hj']; [by eexists|]. rewrite Hj'.
      destruct (HasPrefix (String c (a +:+ b)) p); by eexists.
Qed.

Lemma Contains_app_r (a s p : string) :
  Contains s p = true → Contains (a +:+ s) p = true.
Proof.
  intros H. induction a as [|c a IH]; [done|]. simpl.
  unfold Contains, Index in IH |- *. cbn [index_nat].
  destruct (index_nat (a +:+ s) p) as [j|]; [|done].
  destruct (HasPrefix (String c (a +:+ s)) p); simpl; apply Z.leb_le; lia.
Qed.


(** A caller returns the error of the transport, wrapped, and does not look
    at the response. *)
Lemma CreateUsers_transport_error (w : World) (c : Client) (camera : Camera)
  (users : list Faults.User) (resp : option string) (err : string) :
  sendSOAPRequest w c (getFirstAddress (Address camera))
    "http://www.onvif.org/ver10/device/wsdl/CreateUsers"
    (Faults.createUsersBody users) = (resp, Some err) →
  CreateUsers w c camera users = Some ("failed to create users: " +:+ err).
Proof. unfold CreateUsers. by intros ->. Qed.

(** C4: after a round trip that ends with a status code of 400 or more,
    [sendSOAPRequest] returns the whole body and an error naming the status
    when the body is not empty, and no body and an error naming the status
    when it is empty.  A 401 without body comes back from the transport as
    the error "HTTP 401 with empty response", which the caller wraps and
    returns without running the fault classifier or any decoding. *)
Theorem sendSOAPRequest_error_status (w : World) (c : Client)
  (endpoint action body : string) (StatusCode : Z) (respBody : string) :
  exchange w (newRequest w c endpoint action body)
    = Response StatusCode respBody →
  StatusCode >= 400 →
  (respBody ≠ "" →
     sendSOAPRequest w c endpoint action body
     = (Some respBody,
        Some ("HTTP " +:+ formatInt StatusCode +:+ ": "
              +:+ StatusText w StatusCode)))
  ∧ (respBody = "" →
     sendSOAPRequest w c endpoint action body
     = (None, Some ("HTTP " +:+ formatInt StatusCode +:+ " with empty response")))
  ∧ sendSOAPRequest unauthorized admin "http://10.0.0.5/onvif/device_service"
      "http://www.onvif.org/ver10/device/wsdl/GetUsers" "<tds:GetUsers/>"
    = (None, Some "HTTP 401 with empty response")
  ∧ CreateUsers unauthorized admin Discovery.replyA
      [Faults.Build_User "guest" "pw" Faults.UserLevelUser]
    = Some "failed to create users: HTTP 401 with empty response".
Proof.
  intros Hex Hcode. unfold sendSOAPRequest. rewrite Hex.
  replace (StatusCode >=? 400) with true by (symmetry; apply Z.geb_le; lia).
  assert (Hlen : (len respBody =? 0) = String.eqb respBody "").
  { destruct respBody; [done|]. unfold len. simpl String.length.
    apply Z.eqb_neq. lia. }
  rewrite Hlen. repeat split.
  - intros Hne. by destruct (String.eqb_spec respBody "").
  - intros ->. done.
Qed.

Lemma sendSOAPRequest_error_status_witness :
  (Faults.scenarioC ≠ "" →
     sendSOAPRequest failing admin "http://10.0.0.5/onvif/device_service"
       "http://www.onvif.org/ver10/device/wsdl/GetUsers" "<tds:GetUsers/>"
     = (Some Faults.scenarioC,
        Some ("HTTP " +:+ formatInt 500 +:+ ": " +:+ StatusText failing 500)))
  ∧ (Faults.scenarioC = "" →
     sendSOAPRequest failing admin "http://10.0.0.5/onvif/device_service"
       "http://www.onvif.org/ver10/device/wsdl/GetUsers" "<tds:GetUsers/>"
     = (None, Some ("HTTP " +:+ formatInt 500 +:+ " with empty response")))
  ∧ sendSOAPRequest unauthorized admin "http://10.0.0.5/onvif/device_service"
      "http://www.onvif.org/ver10/device/wsdl/GetUsers" "<tds:GetUsers/>"
    = (None, Some "HTTP 401 with empty response")
  ∧ CreateUsers unauthorized admin Discovery.replyA
      [Faults.Build_User "guest" "pw" Faults.UserLevelUser]
    = Some "failed to create users: HTTP 401 with empty response".
Proof.
  apply (sendSOAPRequest_error_status failing admin
           "http://10.0.0.5/onvif/device_service"
           "http://www.onvif.org/ver10/device/wsdl/GetUsers" "<tds:GetUsers/>"
           500 Faults.scenarioC).
  - reflexivity.
  - lia.
Defined.

(** C7: with an empty user name the header element of the envelope is
    empty, and nothing of the envelope but the caller's body can hold the
    word Security; with a user name the header element holds the Security
    block with its UsernameToken, filled with the name, the digest, the
    nonce and the creation time. *)
Theorem soapRequest_security_header (c : Client) (created : string)
  (unixNano : Z) (body : string) :
  (Username c = "" →
     soapRequest c created unixNano body
     = envelopeOpen +:+ envelopeMiddle +:+ body +:+ envelopeClose
     ∧ Contains (soapRequest c created unixNano body) "<s:Header></s:Header>"
       = true)
  ∧ Contains (envelopeOpen +:+ envelopeMiddle) "Security" = false
  ∧ Contains envelopeClose "Security" = false
  ∧ (Username c ≠ "" →
     soapRequest c created unixNano body
     = envelopeOpen
       +:+ securityHeader (Username c)
             (passwordDigest (formatInt unixNano) created (Password c))
             (Crypto.EncodeToString (formatInt unixNano)) created
       +:+ envelopeMiddle +:+ body +:+ envelopeClose
     ∧ Contains (soapRequest c created unixNano body)
         ("<s:Header>" +:+ nl +:+ tab +:+ tab +:+ "<Security xmlns=") = true)
  ∧ (∀ username digest nonce created,
       Contains (securityHeader username digest nonce created)
         ("<UsernameToken>" +:+ nl +:+ tab +:+ tab +:+ tab +:+ tab
          +:+ "<Username>" +:+ username +:+ "</Username>") = true).
Proof.
  unfold soapRequest, generatePasswordDigest. cbv zeta.
  generalize (passwordDigest (formatInt unixNano) created (Password c)).
  generalize (Crypto.EncodeToString (formatInt unixNano)).
  intros nonce digest. repeat split.
  - rewrite H. reflexivity.
  - rewrite H. simpl negb. cbv iota. unfold envelope.
    rewrite <- !append_assoc. do 2 apply Contains_app_l. reflexivity.
  - destruct (String.eqb_spec (Username c) ""); [done|]. reflexivity.
  - destruct (String.eqb_spec (Username c) ""); [done|]. simpl negb. cbv iota.
    unfold envelope.
    apply (Contains_app_l
             (envelopeOpen +:+ nl +:+ tab +:+ tab +:+ "<Security xmlns=")).
    reflexivity.
  - intros username digest' nonce' created'. unfold securityHeader.
    rewrite <- (append_assoc username "</Username>").
    match goal with |- Contains ?s ?p = true =>
      assert (∃ rest,
        s = (nl +:+ tab +:+ tab +:+ "<Security xmlns="
             +:+ quoted "http://docs.oasis-open.org/wss/2004/01/oasis-200401-wss-wssecurity-secext-1.0.xsd"
             +:+ ">" +:+ nl +:+ tab +:+ tab +:+ tab)
            +:+ p +:+ rest) as [rest ->] by (eexists; reflexivity)
    end.
    apply Contains_app_r, Contains_leading.
Qed.

End SoapClaims.
(** ** The password digest *)

Section DigestClaims.
Import Crypto Soap.

Lemma length_list_ascii_of_string (s : string) :
  length (list_ascii_of_string s) = String.length s.
Proof. induction s as [|c s IH]; simpl; [done|by rewrite IH]. Qed.

Lemma length_string_of_list_ascii (l : list ascii) :
  String.length (string_of_list_ascii l) = length l.
Proof. induction l as [|c l IH]; simpl; [done|by rewrite IH]. Qed.

Lemma list_ascii_of_string_inj (s s' : string) :
  list_ascii_of_string s = list_ascii_of_string s' → s = s'.
Proof.
  intros H. rewrite <- (string_of_list_ascii_of_string s),
    <- (string_of_list_ascii_of_string s'). by rewrite H.
Qed.

Lemma string_of_list_ascii_inj (l l' : list ascii) :
  string_of_list_ascii l = string_of_list_ascii l' → l = l'.
Proof.
  intros H. rewrite <- (list_ascii_of_string_of_list_ascii l),
    <- (list_ascii_of_string_of_list_ascii l'). by rewrite H.
Qed.

Lemma append_inv_tail (a b t : string) : a +:+ t = b +:+ t → a = b.
Proof.
  revert b. induction a as [|x a IH]; intros [|y b] H; simpl in H.
  - done.
  - apply (f_equal String.length) in H. simpl in H.
    rewrite append_length in H. lia.
  - apply (f_equal String.length) in H. simpl in H.
    rewrite append_length in H. lia.
  - injection H as -> H. f_equal. by apply IH.
Qed.

Lemma length_bigEndian (n : nat) (x : Z) : length (bigEndian n x) = n.
Proof. induction n as [|n IH]; simpl; [done|by rewrite IH]. Qed.

(** A SHA-1 digest has 20 bytes. *)
Lemma sha1_length (msg : string) : String.length (sha1 msg) = 20%nat.
Proof.
  unfold sha1. cbv zeta.
  destruct (blocks _ _ _) as [[[[h0 h1] h2] h3] h4].
  by rewrite length_string_of_list_ascii, length_fmap, !length_app,
    !length_bigEndian.
Qed.

Lemma passwordDigest_sha1 (nonceBytes created password : string) :
  passwordDigest nonceBytes created password
  = EncodeToString (sha1 (nonceBytes +:+ created +:+ password)).
Proof.
  unfold passwordDigest, Sum, Write, New. cbv zeta. simpl String.append.
  by rewrite append_assoc.
Qed.

(** There are more passwords of 21 bytes than digests: two of them share
    their digest, whatever the nonce and the creation time. *)
Lemma sha1_collision (nonceBytes created : string) :
  ∃ p p', p ≠ p'
    ∧ sha1 (nonceBytes +:+ created +:+ p) = sha1 (nonceBytes +:+ created +:+ p').
Proof.
  pose (f := λ v : vec ascii 21,
    (list_ascii_of_string
       (sha1 (nonceBytes +:+ created +:+ string_of_list_ascii (vec_to_list v)))
     ↾ eq_trans (length_list_ascii_of_string _) (sha1_length _))
    : { l : list ascii | length l = 20%nat }).
  destruct (finite_pigeonhole f) as (v1 & v2 & Hne & Heq).
  { rewrite vec_card, list_card. apply Nat.pow_lt_mono_r; [|lia].
    vm_compute. lia. }
  exists (string_of_list_ascii (vec_to_list v1)),
         (string_of_list_ascii (vec_to_list v2)).
  split.
  - intros H%string_of_list_ascii_inj. by apply Hne, vec_to_list_inj2.
  - apply (f_equal proj1_sig) in Heq. simpl in Heq.
    by apply list_ascii_of_string_inj.
Qed.

(** The alphabet has 64 different characters. *)
Lemma unsextet_sextet (v : Z) : unsextet (sextet v) = v mod 64.
Proof.
  assert (Hall : forallb (λ i, unsextet (sextet (Z.of_nat i)) =? Z.of_nat i)
                   (seq 0 64) = true) by (vm_compute; reflexivity).
  rewrite forallb_forall in Hall.
  assert (Hv : 0 <= v mod 64 < 64) by (apply Z.mod_pos_bound; lia).
  specialize (Hall (Z.to_nat (v mod 64))).
  rewrite Z2Nat.id in Hall by lia.
  assert (sextet v = sextet (v mod 64)) as ->.
  { unfold sextet. by rewrite Z.mod_mod. }
  apply Z.eqb_eq, Hall, in_seq. lia.
Qed.

Lemma sextet_inj (v v' : Z) : sextet v = sextet v' → v mod 64 = v' mod 64.
Proof. intros H. by rewrite <- !unsextet_sextet, H. Qed.

(** The four sextets of three bytes. *)
Lemma sextets (a b c : Z) :
  isByte a → isByte b → isByte c →
  let val := Z.shiftl a 16 + Z.shiftl b 8 + c in
  Z.shiftr val 18 mod 64 = a / 4
  ∧ Z.shiftr val 12 mod 64 = (a mod 4) * 16 + b / 16
  ∧ Z.shiftr val 6 mod 64 = (b mod 16) * 4 + c / 64
  ∧ val mod 64 = c mod 64.
Proof.
  unfold isByte. intros Ha Hb Hc. cbv zeta.
  rewrite !Z.shiftr_div_pow2, !Z.shiftl_mul_pow2 by lia.
  change (2 ^ 16) with 65536. change (2 ^ 18) with 262144.
  change (2 ^ 12) with 4096. change (2 ^ 8) with 256. change (2 ^ 6) with 64.
  repeat split; Z.div_mod_to_equations; lia.
Qed.

Lemma sextets_inj (a b c a' b' c' : Z) :
  isByte a → isByte b → isByte c → isByte a' → isByte b' → isByte c' →
  a / 4 = a' / 4 →
  (a mod 4) * 16 + b / 16 = (a' mod 4) * 16 + b' / 16 →
  (b mod 16) * 4 + c / 64 = (b' mod 16) * 4 + c' / 64 →
  c mod 64 = c' mod 64 →
  a = a' ∧ b = b' ∧ c = c'.
Proof. unfold isByte. intros. Z.div_mod_to_equations. lia. Qed.

(** Base64 loses nothing: byte strings of one length with the same encoding
    are equal. *)
Lemma encode_inj (n : nat) : ∀ l l',
  length l = n → length l' = n → Forall isByte l → Forall isByte l' →
  encode l = encode l' → l = l'.
Proof.
  assert (H0 : isByte 0) by (unfold isByte; lia).
  induction n as [n IH] using lt_wf_ind. intros l l' Hl Hl' HP HP' He.
  destruct l as [|a [|b [|c rest]]], l' as [|a' [|b' [|c' rest']]];
    simpl in Hl, Hl'; try lia; try done.
  - inversion HP as [|?? Ha _]; inversion HP' as [|?? Ha' _]; subst.
    cbn [encode] in He. cbv zeta in He.
    injection He as H1%sextet_inj H2%sextet_inj.
    destruct (sextets a 0 0 Ha H0 H0) as (E1 & E2 & _).
    destruct (sextets a' 0 0 Ha' H0 H0) as (E1' & E2' & _).
    cbv zeta in E1, E2, E1', E2'. rewrite Z.shiftl_0_l, !Z.add_0_r in *.
    rewrite E1, E1' in H1. rewrite E2, E2' in H2.
    destruct (sextets_inj a 0 0 a' 0 0) as (-> & _);
      auto; change (0 / 16) with 0; lia.
  - inversion HP as [|?? Ha HPb]; inversion HPb as [|?? Hb _];
      inversion HP' as [|?? Ha' HPb']; inversion HPb' as [|?? Hb' _]; subst.
    cbn [encode] in He. cbv zeta in He.
    injection He as H1%sextet_inj H2%sextet_inj H3%sextet_inj.
    destruct (sextets a b 0 Ha Hb H0) as (E1 & E2 & E3 & _).
    destruct (sextets a' b' 0 Ha' Hb' H0) as (E1' & E2' & E3' & _).
    cbv zeta in E1, E2, E3, E1', E2', E3'. rewrite !Z.add_0_r in *.
    rewrite E1, E1' in H1. rewrite E2, E2' in H2. rewrite E3, E3' in H3.
    destruct (sextets_inj a b 0 a' b' 0) as (-> & -> & _);
      auto; change (0 / 64) with 0; lia.
  - inversion HP as [|?? Ha HPb]; inversion HPb as [|?? Hb HPc];
      inversion HPc as [|?? Hc HPr];
      inversion HP' as [|?? Ha' HPb']; inversion HPb' as [|?? Hb' HPc'];
      inversion HPc' as [|?? Hc' HPr']; subst.
    cbn [encode] in He. cbv zeta in He.
    injection He as H1%sextet_inj H2%sextet_inj H3%sextet_inj H4%sextet_inj He.
    assert (rest = rest') as ->.
    { apply (IH (length rest)); try done; simpl in *; lia. }
    destruct (sextets a b c Ha Hb Hc) as (E1 & E2 & E3 & E4).
    destruct (sextets a' b' c' Ha' Hb' Hc') as (E1' & E2' & E3' & E4').
    cbv zeta in E1, E2, E3, E4, E1', E2', E3', E4'.
    rewrite E1, E1' in H1. rewrite E2, E2' in H2. rewrite E3, E3' in H3.
    rewrite E4, E4' in H4.
    destruct (sextets_inj a b c a' b' c') as (-> & -> & ->); auto.
Qed.

Lemma byteZ_isByte (c : ascii) : isByte (byteZ c).
Proof.
  unfold isByte, byteZ. pose proof (N_ascii_bounded c). lia.
Qed.

Lemma byteZ_inj (c c' : ascii) : byteZ c = byteZ c' → c = c'.
Proof.
  unfold byteZ. intros H%Z2N.inj_iff; [|lia..]. rewrite !N2Z.id in H.
  by rewrite <- (ascii_N_embedding c), <- (ascii_N_embedding c'), H.
Qed.

Lemma EncodeToString_inj (s s' : string) :
  String.length s = String.length s' →
  EncodeToString s = EncodeToString s' → s = s'.
Proof.
  unfold EncodeToString, bytes. intros Hlen He.
  apply list_ascii_of_string_inj.
  assert (Inj (=) (=) byteZ) by (intros ??; apply byteZ_inj).
  apply (inj (fmap (M := list) byteZ)).
  apply (encode_inj (String.length s)); try done.
  - by rewrite length_fmap, length_list_ascii_of_string.
  - by rewrite length_fmap, length_list_ascii_of_string.
  - apply Forall_fmap, Forall_true. intros c. apply byteZ_isByte.
  - apply Forall_fmap, Forall_true. intros c. apply byteZ_isByte.
Qed.

Lemma passwordDigest_eq_iff (n c p n' c' p' : string) :
  passwordDigest n' c' p' = passwordDigest n c p
  ↔ sha1 (n' +:+ c' +:+ p') = sha1 (n +:+ c +:+ p).
Proof.
  rewrite !passwordDigest_sha1. split; [|by intros ->].
  apply EncodeToString_inj. by rewrite !sha1_length.
Qed.

(** C5 (as stated) fails: for the nonce and creation time of the example
    two different passwords have the same digest. *)
Lemma passwordDigest_collision :
  ∃ password password',
    password ≠ password'
    ∧ passwordDigest "1714558830123456789" "2024-05-01T10:20:30.123Z" password
      = passwordDigest "1714558830123456789" "2024-05-01T10:20:30.123Z"
          password'.
Proof.
  destruct (sha1_collision "1714558830123456789" "2024-05-01T10:20:30.123Z")
    as (p & p' & Hne & Heq).
  exists p, p'. split; [done|]. by apply passwordDigest_eq_iff.
Qed.

(** C5 (amended): the digest is the Base64 text of the SHA-1 hash of the
    nonce bytes, the creation time and the password, in this order, and the
    nonce returned is the Base64 text of the nonce bytes; it is a function
    of these three byte strings.  A change of one of them changes the bytes
    that are hashed, and two digests are equal exactly when the SHA-1 hashes
    are; on the inputs of the example each single change gives another
    digest. *)
Theorem passwordDigest_spec (nonceBytes created password : string) :
  passwordDigest nonceBytes created password
  = EncodeToString (sha1 (nonceBytes +:+ created +:+ password))
  ∧ (∀ unixNano username,
       generatePasswordDigest created unixNano username password
       = (EncodeToString (sha1 (formatInt unixNano +:+ created +:+ password)),
          EncodeToString (formatInt unixNano), created))
  ∧ (∀ n' c' p',
       passwordDigest n' c' p' = passwordDigest nonceBytes created password
       ↔ sha1 (n' +:+ c' +:+ p') = sha1 (nonceBytes +:+ created +:+ password))
  ∧ (∀ n', n' ≠ nonceBytes →
       n' +:+ created +:+ password ≠ nonceBytes +:+ created +:+ password)
  ∧ (∀ c', c' ≠ created →
       nonceBytes +:+ c' +:+ password ≠ nonceBytes +:+ created +:+ password)
  ∧ (∀ p', p' ≠ password →
       nonceBytes +:+ created +:+ p' ≠ nonceBytes +:+ created +:+ password)
  ∧ passwordDigest "1714558830123456789" "2024-05-01T10:20:30.123Z" "secret"
    = "xqMmyF6mA5lXXbVuvzUHNfY4Uz0="
  ∧ passwordDigest "1714558830123456780" "2024-05-01T10:20:30.123Z" "secret"
    ≠ "xqMmyF6mA5lXXbVuvzUHNfY4Uz0="
  ∧ passwordDigest "1714558830123456789" "2024-05-01T10:20:30.124Z" "secret"
    ≠ "xqMmyF6mA5lXXbVuvzUHNfY4Uz0="
  ∧ passwordDigest "1714558830123456789" "2024-05-01T10:20:30.123Z" "Secret"
    ≠ "xqMmyF6mA5lXXbVuvzUHNfY4Uz0=".
Proof.
  split; [apply passwordDigest_sha1|].
  split.
  { intros unixNano username. unfold generatePasswordDigest. cbv zeta.
    by rewrite passwordDigest_sha1. }
  split; [intros; apply passwordDigest_eq_iff|].
  split.
  { intros n' Hn H. by apply Hn, (append_inv_tail _ _ (created +:+ password)). }
  split.
  { intros c' Hc H. apply String.app_inj in H.
    by apply Hc, (append_inv_tail _ _ password). }
  split.
  { intros p' Hp H. by do 2 apply String.app_inj in H. }
  repeat split; vm_compute; congruence.
Qed.

End DigestClaims.

(** * Part III: further properties *)

(** ** More on byte strings *)

Section MoreStringFacts.

Lemma HasPrefix_refl (s : string) : HasPrefix s s = true.
Proof. induction s as [|c s IH]; simpl; [done|]. by rewrite Ascii.eqb_refl. Qed.

(** An occurrence is a place where the string reads: before, pattern,
    after. *)
Lemma index_nat_Some (s p : string) (i : nat) :
  index_nat s p = Some i →
  ∃ a b, s = a +:+ p +:+ b ∧ String.length a = i.
Proof.
  revert i. induction s as [|c s IH]; intros i; cbn [index_nat].
  - destruct (HasPrefix "" p) eqn:E; [|done]. intros [= <-].
    apply HasPrefix_inv in E as [t Ht]. by exists "", t.
  - destruct (HasPrefix (String c s) p) eqn:E.
    + intros [= <-]. apply HasPrefix_inv in E as [t Ht]. by exists "", t.
    + destruct (index_nat s p) as [j|] eqn:Ej; [|done]. intros [= <-].
      destruct (IH j eq_refl) as (a & b & -> & <-).
      by exists (String c a), b.
Qed.

Lemma index_nat_cons (c : ascii) (s p : string) :
  index_nat (String c s) p
  = if HasPrefix (String c s) p then Some O else S <$> index_nat s p.
Proof. reflexivity. Qed.

Lemma index_nat_None_cons (c : ascii) (s p : string) :
  index_nat (String c s) p = None →
  HasPrefix (String c s) p = false ∧ index_nat s p = None.
Proof.
  cbn [index_nat]. destruct (HasPrefix (String c s) p); [done|].
  by destruct (index_nat s p).
Qed.

(** A pattern that matches at the start of [u +:+ w] lies within [u] or
    runs on into [w]. *)
Lemma HasPrefix_split (q u w : string) :
  HasPrefix (u +:+ w) q = true →
  HasPrefix u q = true ∨ ∃ q2, q = u +:+ q2 ∧ HasPrefix w q2 = true.
Proof.
  revert u. induction q as [|x q IH]; intros u; [by left|].
  destruct u as [|y u]; simpl.
  - intros H. right. by exists (String x q).
  - intros [Hy Hq]%andb_true_iff. apply Ascii.eqb_eq in Hy as ->.
    destruct (IH u Hq) as [Hl|(q2 & -> & Hq2)].
    + left. by rewrite Ascii.eqb_refl.
    + right. by exists q2.
Qed.

Lemma occurrences_app_0 (c : ascii) (a b : string) :
  occurrences c (a +:+ b) = O → occurrences c a = O ∧ occurrences c b = O.
Proof. rewrite occurrences_app. lia. Qed.

(** The first occurrence of a pattern whose first byte does not come back
    in it, after a text that does not hold the pattern, is right after that
    text. *)
Lemma index_nat_first (a b q : string) (c : ascii) :
  occurrences c q = O →
  index_nat a (String c q) = None →
  index_nat (a +:+ String c q +:+ b) (String c q) = Some (String.length a).
Proof.
  intros Hq. induction a as [|x a IH]; intros Ha.
  - simpl String.append. cbn [index_nat].
    pose proof (HasPrefix_app (String c q) b) as Hp.
    cbn [String.append] in Hp. by rewrite Hp.
  - apply index_nat_None_cons in Ha as [Hx Ha].
    specialize (IH Ha). cbn [String.append] in IH |- *. rewrite index_nat_cons.
    destruct (HasPrefix (String x (a +:+ String c (q +:+ b))) (String c q)) eqn:E.
    + exfalso.
      destruct (HasPrefix_split (String c q) (String x a) (String c (q +:+ b)) E)
        as [Hl|(q2 & Hq2 & Hw)]; [congruence|].
      simpl in Hq2. injection Hq2 as -> Hq2.
      destruct q2 as [|d q2].
      * rewrite append_nil_r in Hq2. subst q.
        by rewrite HasPrefix_refl in Hx.
      * simpl in Hw. apply andb_true_iff in Hw as [Hd _].
        apply Ascii.eqb_eq in Hd as ->. subst q.
        apply occurrences_app_0 in Hq as [_ Hq]. simpl in Hq.
        rewrite Ascii.eqb_refl in Hq. lia.
    + by rewrite IH.
Qed.

Lemma Index_first (a b q : string) (c : ascii) :
  occurrences c q = O →
  Contains a (String c q) = false →
  Index (a +:+ String c q +:+ b) (String c q) = len a.
Proof.
  intros Hq Ha%Contains_false. unfold Index in Ha |- *.
  rewrite (index_nat_first a b q c Hq); [done|].
  destruct (index_nat a (String c q)); [lia|done].
Qed.

(** A text without the first byte of a pattern does not hold the pattern. *)
Lemma Contains_no_byte (s q : string) (c : ascii) :
  occurrences c s = O → Contains s (String c q) = false.
Proof.
  intros Hs. apply Contains_false. unfold Index.
  assert (index_nat s (String c q) = None) as ->; [|done].
  induction s as [|x s IH]; [done|]. simpl in Hs.
  cbn [index_nat HasPrefix].
  destruct (Ascii.eqb_spec x c); [lia|]. simpl. rewrite IH; [done|lia].
Qed.

Lemma drop_app (a s : string) : drop (String.length a) (a +:+ s) = s.
Proof. induction a as [|c a IH]; simpl; done. Qed.

Lemma take_app (t b : string) : take (String.length t) (t +:+ b) = t.
Proof. induction t as [|c t IH]; simpl; [by destruct b|by rewrite IH]. Qed.

Lemma from_app (a s : string) : from (a +:+ s) (len a) = s.
Proof. unfold from, len. by rewrite Nat2Z.id, drop_app. Qed.

Lemma slice_app (a t b : string) :
  slice (a +:+ t +:+ b) (len a) (len a + len t) = t.
Proof.
  unfold slice, len. rewrite Nat2Z.id, drop_app.
  replace (Z.to_nat _) with (String.length t) by lia. apply take_app.
Qed.

Lemma len_app (a b : string) : len (a +:+ b) = len a + len b.
Proof. unfold len. rewrite append_length. lia. Qed.

Lemma length_drop (n : nat) (s : string) :
  String.length (drop n s) = (String.length s - n)%nat.
Proof.
  revert s. induction n as [|n IH]; intros [|c s]; simpl; try done; lia.
Qed.

Lemma length_take (n : nat) (s : string) :
  String.length (take n s) = Nat.min n (String.length s).
Proof.
  revert s. induction n as [|n IH]; intros [|c s]; simpl; try done.
  by rewrite IH.
Qed.

(** Where [Index] finds a pattern, the pattern fits into the string. *)
Lemma Index_bounds (s p : string) :
  Index s p = -1 ∨ (0 <= Index s p ∧ Index s p + len p <= len s).
Proof.
  unfold Index. destruct (index_nat s p) as [i|] eqn:E; [right|by left].
  apply index_nat_Some in E as (a & b & -> & <-).
  rewrite !len_app. unfold len. lia.
Qed.

Lemma get_app (a s : string) :
  String.get (String.length a) (a +:+ s) = String.get 0 s.
Proof. induction a as [|c a IH]; simpl; done. Qed.

(** The byte at the place of an occurrence is the first byte of the
    pattern. *)
Lemma at_Index (s q : string) (c : ascii) :
  Index s (String c q) ≠ -1 → at_ s (Index s (String c q)) = Some c.
Proof.
  unfold Index. destruct (index_nat s (String c q)) as [i|] eqn:E; [|done].
  intros _. apply index_nat_Some in E as (a & b & -> & <-).
  unfold at_. replace (_ <? 0) with false by (symmetry; apply Z.ltb_ge; lia).
  by rewrite Nat2Z.id, get_app.
Qed.

Lemma at_Some_bounds (s : string) (i : Z) (c : ascii) :
  at_ s i = Some c → 0 <= i < len s.
Proof.
  unfold at_, len. destruct (Z.ltb_spec i 0) as [|Hi]; [done|]. intros Hget.
  assert (Z.to_nat i < String.length s)%nat; [|lia].
  clear Hi. revert Hget. generalize (Z.to_nat i). intros n. revert n.
  induction s as [|x s IH]; intros [|n]; simpl; try done; [lia|].
  intros Hn%IH. lia.
Qed.

End MoreStringFacts.
(** ** First addresses and display names *)

Section AddressFacts.
Import Discovery ClientInfo.

Lemma noSpace_snoc (s : string) (c : ascii) :
  noSpace s = true → isSpace c = false → noSpace (s +:+ String c "") = true.
Proof.
  intros Hs Hc. induction s as [|x s IH]; simpl in *; [by rewrite Hc|].
  apply andb_true_iff in Hs as [-> Hs]. simpl. by apply IH.
Qed.

Lemma fieldsFrom_noSpace (s cur : string) :
  noSpace cur = true → Forall (λ t, noSpace t = true) (fieldsFrom cur s).
Proof.
  revert cur. induction s as [|c s IH]; intros cur Hcur; simpl.
  - destruct (String.eqb cur ""); by repeat constructor.
  - destruct (isSpace c) eqn:Hc.
    + destruct (String.eqb cur ""); [by apply IH|].
      constructor; [done|by apply IH].
    + by apply IH, noSpace_snoc.
Qed.

(** A text without white space is its own single field. *)
Lemma fieldsFrom_token (t cur : string) :
  noSpace t = true →
  fieldsFrom cur t = if String.eqb (cur +:+ t) "" then [] else [cur +:+ t].
Proof.
  revert cur. induction t as [|c t IH]; intros cur Ht; simpl.
  - by rewrite append_nil_r.
  - simpl in Ht. apply andb_true_iff in Ht as [Hc Ht].
    apply negb_true_iff in Hc. rewrite Hc, (IH _ Ht), append_assoc. done.
Qed.

Lemma Fields_token (t : string) :
  noSpace t = true → t ≠ "" → Fields t = [t].
Proof.
  intros Ht Hne. unfold Fields. rewrite fieldsFrom_token by done. simpl.
  by destruct (String.eqb_spec t "").
Qed.

Lemma Fields_head (address t : string) (ts : list string) :
  Fields address = t :: ts → noSpace t = true ∧ t ≠ "".
Proof.
  intros H. split.
  - pose proof (fieldsFrom_noSpace address "" eq_refl) as Hall.
    unfold Fields in H. rewrite H in Hall. by inversion Hall.
  - pose proof (fieldsFrom_nonempty address "") as Hall.
    unfold Fields in H. rewrite H in Hall. by inversion Hall.
Qed.

Lemma getFirstAddress_empty_iff (address : string) :
  getFirstAddress address = "" ↔ address = "".
Proof.
  assert (Hg : getFirstAddress address
               = match Fields address with t :: _ => t | [] => address end)
    by reflexivity.
  destruct (Fields address) as [|t ts] eqn:E; rewrite Hg; [done|].
  destruct (Fields_head _ _ _ E) as [Hsp Hne]. split; [done|].
  intros ->. by vm_compute in E.
Qed.

(** X1: [getFirstAddress] never fails: for an address with a field it
    gives the first field, which is not empty, has no white space and is the
    key of de-duplication; an address without a field comes back as it is.
    It gives the empty string only for the empty address, and applying it
    twice changes nothing. *)
Theorem getFirstAddress_first_field (address : string) :
  getFirstAddress (getFirstAddress address) = getFirstAddress address
  ∧ (getFirstAddress address = "" ↔ address = "")
  ∧ (Fields address ≠ [] →
       head (Fields address) = Some (getFirstAddress address)
       ∧ noSpace (getFirstAddress address) = true
       ∧ getFirstAddress address ≠ "")
  ∧ (Fields address = [] → getFirstAddress address = address)
  ∧ (∀ camera, Address camera = address → Fields address ≠ [] →
       keyOf camera = Some (getFirstAddress address)).
Proof.
  assert (Hg : ∀ a, getFirstAddress a
                    = match Fields a with t :: _ => t | [] => a end)
    by reflexivity.
  unfold keyOf. destruct (Fields address) as [|t ts] eqn:E.
  - assert (Ha : getFirstAddress address = address) by (by rewrite Hg, E).
    rewrite !Ha. repeat split; try done.
  - assert (Ha : getFirstAddress address = t) by (by rewrite Hg, E).
    destruct (Fields_head _ _ _ E) as [Hsp Hne]. rewrite !Ha.
    repeat split; try done.
    + by rewrite Hg, (Fields_token t).
    + intros ->. by vm_compute in E.
    + intros camera -> _. by rewrite E.
Qed.

(** X2: [GetDisplayName] is empty only for a camera of which nothing is
    known: no host name, no discovery name, no model, no address, and not
    both a manufacturer and a device model.  Manufacturer and device model
    together come first, then the host name, the discovery name, the model
    and the first address. *)
Theorem GetDisplayName_empty (camera : Camera) :
  (GetDisplayName camera = "" ↔
     (Manufacturer camera = "" ∨ DeviceModel camera = "")
     ∧ Hostname camera = "" ∧ Name camera = "" ∧ Model camera = ""
     ∧ Address camera = "")
  ∧ (Manufacturer camera ≠ "" → DeviceModel camera ≠ "" →
       GetDisplayName camera
       = Manufacturer camera +:+ " " +:+ DeviceModel camera)
  ∧ ((Manufacturer camera = "" ∨ DeviceModel camera = "") →
       (Hostname camera ≠ "" → GetDisplayName camera = Hostname camera)
       ∧ (Hostname camera = "" → Name camera ≠ "" →
            GetDisplayName camera = Name camera)
       ∧ (Hostname camera = "" → Name camera = "" → Model camera ≠ "" →
            GetDisplayName camera = Model camera)
       ∧ (Hostname camera = "" → Name camera = "" → Model camera = "" →
            GetDisplayName camera = getFirstAddress (Address camera))).
Proof.
  pose proof (getFirstAddress_empty_iff (Address camera)) as Hempty.
  assert (Hjoin : ∀ m d : string, m ≠ "" → m +:+ " " +:+ d ≠ "")
    by (by intros [|??] ?).
  unfold GetDisplayName.
  destruct (String.eqb_spec (Manufacturer camera) "") as [Hm|Hm];
    destruct (String.eqb_spec (DeviceModel camera) "") as [Hd|Hd];
    destruct (String.eqb_spec (Hostname camera) "") as [Hh|Hh];
    destruct (String.eqb_spec (Name camera) "") as [Hn|Hn];
    destruct (String.eqb_spec (Model camera) "") as [Ho|Ho];
    cbn [negb andb];
    (split; [split; [intros H | intros (H1 & H2 & H3 & H4 & H5)] | split]);
    try (specialize (Hjoin _ (DeviceModel camera) Hm));
    try tauto; try congruence;
    try (intros; repeat split; intros; congruence).
Qed.

End AddressFacts.
(** ** Types and scopes of several probe matches *)

Section ProfileFacts.
Import Discovery Profiles.

(** Splitting at spaces a text made of two parts with a space between them
    gives the pieces of the first part and then those of the second. *)
Lemma splitFrom_space_app (a b cur : string) :
  splitFrom " " O cur (a +:+ " " +:+ b)
  = (splitFrom " " O cur a ++ splitFrom " " O "" b)%list.
Proof.
  revert cur. induction a as [|c a IH]; intros cur; [done|].
  cbn [String.append splitFrom HasPrefix String.length].
  rewrite andb_true_r. destruct (Ascii.eqb c " ").
  - simpl Nat.sub. cbn [String.append] in IH. by rewrite IH.
  - cbn [String.append] in IH. by rewrite IH.
Qed.

Lemma Split_space_app (a b : string) :
  Split (a +:+ " " +:+ b) " " = (Split a " " ++ Split b " ")%list.
Proof. apply splitFrom_space_app. Qed.

Lemma fold_profileStep (tokens : list string) (acc : list string) :
  fold_left profileStep tokens acc
  = (acc ++ fold_left profileStep tokens [])%list.
Proof.
  revert acc. induction tokens as [|t tokens IH]; intros acc; simpl.
  - by rewrite app_nil_r.
  - rewrite IH, (IH (profileStep [] t)), app_assoc. f_equal.
    unfold profileStep. cbv zeta.
    repeat (match goal with |- context [if ?b then _ else _] => destruct b end;
            try done).
    by rewrite app_nil_r.
Qed.

Lemma profileStep_one (t : string) :
  profileStep [] t = [] ∨ ∃ tag, tag ∈ profileTags ∧ profileStep [] t = [tag].
Proof.
  unfold profileStep, profileTags. cbv zeta.
  repeat (match goal with |- context [if ?b then _ else _] => destruct b end;
          try (right; eexists; split; [|reflexivity]; set_solver)).
  by left.
Qed.

(** X3: the capability tags of a type list made of two lists with a space
    between them are the tags of the first followed by the tags of the
    second. *)
Theorem parseProfiles_app (a b : string) :
  parseProfiles (a +:+ " " +:+ b) = (parseProfiles a ++ parseProfiles b)%list.
Proof.
  unfold parseProfiles. cbv zeta.
  by rewrite Split_space_app, fold_left_app, fold_profileStep.
Qed.

Lemma fold_profileStep_tags (tokens : list string) :
  Forall (λ tag, tag ∈ profileTags) (fold_left profileStep tokens [])
  ∧ (length (fold_left profileStep tokens []) <= length tokens)%nat.
Proof.
  induction tokens as [|t tokens [IH1 IH2]]; simpl; [by split|].
  rewrite fold_profileStep.
  destruct (profileStep_one t) as [->|(tag & Htag & ->)]; simpl.
  - split; [done|lia].
  - split; [by constructor|lia].
Qed.

Lemma length_splitFrom_space (s cur : string) :
  length (splitFrom " " O cur s) = S (occurrences " " s).
Proof.
  revert cur. induction s as [|c s IH]; intros cur; [done|].
  cbn [splitFrom HasPrefix String.length occurrences].
  rewrite andb_true_r. destruct (Ascii.eqb c " "); simpl; by rewrite IH.
Qed.

(** The pieces that [Split] cuts out are parts of the text, and trimming
    leaves a part of the piece. *)
Lemma splitFrom_pieces (s cur : string) :
  Forall (λ p, ∃ a b, cur +:+ s = a +:+ p +:+ b) (splitFrom " " O cur s).
Proof.
  revert cur. induction s as [|c s IH]; intros cur.
  - constructor; [|done]. by exists "", "".
  - cbn [splitFrom HasPrefix String.length]. rewrite andb_true_r.
    destruct (Ascii.eqb_spec c " ") as [->|Hc].
    + constructor; [by exists "", (String " " s)|].
      simpl Nat.sub. eapply Forall_impl; [apply (IH "")|].
      intros p (a & b & Hab). simpl in Hab.
      exists (cur +:+ " " +:+ a), b. rewrite Hab, !append_assoc. done.
    + eapply Forall_impl; [apply (IH (cur +:+ String c ""))|].
      intros p (a & b & Hab). exists a, b.
      rewrite <- Hab, append_assoc. done.
Qed.

Lemma trimLeft_part (s : string) : ∃ a, s = a +:+ trimLeft s.
Proof.
  induction s as [|c s [a IH]]; [by exists ""|]. simpl.
  destruct (isSpace c); [|by exists ""].
  exists (String c a). simpl. by rewrite <- IH.
Qed.

Lemma trimRight_part (s : string) : ∃ b, s = trimRight s +:+ b.
Proof.
  induction s as [|c s [b IH]]; [by exists ""|]. simpl.
  destruct (trimRight s) as [|x t] eqn:E.
  - destruct (isSpace c).
    + by exists (String c s).
    + exists b. simpl. by rewrite IH.
  - exists b. simpl. by rewrite IH.
Qed.

Lemma Contains_part (a p b w : string) :
  Contains (a +:+ p +:+ b) w = false → Contains p w = false.
Proof.
  intros H. destruct (Contains p w) eqn:E; [|done].
  assert (Contains (a +:+ p +:+ b) w = true)
    by (by apply Contains_app_r, Contains_app_l).
  congruence.
Qed.

Lemma Contains_TrimSpace (p w : string) :
  Contains p w = false → Contains (TrimSpace p) w = false.
Proof.
  intros H. unfold TrimSpace.
  destruct (trimLeft_part p) as [a Ha].
  destruct (trimRight_part (trimLeft p)) as [b Hb].
  rewrite Ha, Hb in H. by apply Contains_part in H.
Qed.

(** X4: every tag that [parseProfiles] gives is one of the nine known
    capability names, and a type list gives at most one tag per piece
    between spaces; a type list that holds none of the nine words the
    pieces are searched for gives no tag. *)
Theorem parseProfiles_tags (types : string) :
  Forall (λ tag, tag ∈ profileTags) (parseProfiles types)
  ∧ (length (parseProfiles types) <= S (occurrences " " types))%nat
  ∧ (Forall (λ word, Contains types word = false)
       ["NetworkVideoTransmitter"; "Device"; "Media"; "PTZ"; "Analytics";
        "Events"; "Imaging"; "Recording"; "Replay"] →
     parseProfiles types = []).
Proof.
  unfold parseProfiles. cbv zeta.
  destruct (fold_profileStep_tags (Split types " ")) as [H1 H2].
  split; [done|]. split.
  - etrans; [exact H2|]. unfold Split. by rewrite length_splitFrom_space.
  - intros Hwords.
    assert (Hstep : ∀ p, (∃ a b, types = a +:+ p +:+ b) → profileStep [] p = []).
    { intros p (a & b & Hp). unfold profileStep. cbv zeta.
      repeat (match goal with
              | |- context [Contains (TrimSpace p) ?w] =>
                  rewrite (Contains_TrimSpace p w)
                    by (apply (Contains_part a p b); rewrite <- Hp;
                        revert Hwords; rewrite !Forall_cons; tauto)
              end).
      done. }
    pose proof (splitFrom_pieces types "") as Hpieces. simpl in Hpieces.
    unfold Split. induction Hpieces as [|p ps Hp _ IH]; [done|].
    simpl. rewrite fold_profileStep, (Hstep p Hp). apply IH.
Qed.

End ProfileFacts.
(** ** Scopes and cameras of several replies *)

Section ScopeFacts.
Import Discovery.

(** X5: the scopes of a string made of two scope lists with a space
    between them are those of the first list, overridden token by token by
    the second: [parseScopes] goes on from the result of the first list.
    With lists of which the second sets no field the result is that of the
    first. *)
Theorem parseScopes_app (a b : string) :
  parseScopes (a +:+ " " +:+ b)
  = fold_left scopeStep (Split b " ") (parseScopes a)
  ∧ (Contains b namePattern = false →
     Contains b locationPattern = false →
     Contains b hardwarePattern = false →
     parseScopes (a +:+ " " +:+ b) = parseScopes a).
Proof.
  assert (Hfold : parseScopes (a +:+ " " +:+ b)
                  = fold_left scopeStep (Split b " ") (parseScopes a)).
  { unfold parseScopes. cbv zeta. by rewrite Split_space_app, fold_left_app. }
  split; [done|]. intros Hn Hl Hh. rewrite Hfold.
  generalize (parseScopes a). intros st.
  pose proof (splitFrom_pieces b "") as Hpieces. simpl in Hpieces.
  unfold Split. revert st.
  induction Hpieces as [|p ps (x & y & Hp) _ IH]; intros st; [done|].
  simpl. rewrite <- IH. f_equal.
  destruct st as [[name location] model]. unfold scopeStep. cbv zeta.
  rewrite !Contains_TrimSpace;
    [done|apply (Contains_part x p y); by rewrite <- Hp..].
Qed.

(** X6: de-duplication invents nothing and loses no device: every camera
    it returns is one of the input, it returns no more cameras than it was
    given, and every input camera has a returned camera with its key. *)
Theorem deduplicateCameras_covers (order : rangeOrder)
  (cams out : list Camera) :
  deduplicateCameras order cams = Done out →
  (∀ c, c ∈ out → c ∈ cams)
  ∧ (length out <= length cams)%nat
  ∧ (∀ c, c ∈ cams → ∃ c', c' ∈ out ∧ keyOf c' = keyOf c).
Proof.
  intros (m & Hm & ->)%deduplicateCameras_Done.
  pose proof (dedupLoop_keyed _ _ Hm) as Hkeyed.
  assert (Hsub : ∀ c, c ∈ (order m).*2 → c ∈ cams).
  { intros c (k & Hk)%elem_of_visit.
    rewrite (dedupLoop_lookup _ _ _ k Hm), lookup_empty in Hk.
    by apply firstSeen_Some in Hk as [? _]. }
  split; [done|]. split.
  - rewrite <- (length_fmap keyOf (visit order m).*2), <- (length_fmap keyOf cams).
    apply submseteq_length, NoDup_submseteq; [by apply visit_keys_NoDup|].
    intros ok (c & -> & Hc)%list_elem_of_fmap.
    apply list_elem_of_fmap. exists c. split; [done|by apply Hsub].
  - intros c Hc.
    destruct (keyOf c) as [k|] eqn:Ek.
    + destruct (proj2 (dedupLoop_dom _ _ k Hm)) as [c' Hc']; [by exists c|].
      exists c'. split; [apply elem_of_visit; eauto|by apply Hkeyed].
    + exfalso. clear -Hm Hc Ek. revert Hm. generalize (∅ : gmap string Camera).
      induction cams as [|c0 cams IH]; intros m0 Hm; [by apply elem_of_nil in Hc|].
      simpl in Hm. destruct (dedupInsert m0 c0) as [m1|] eqn:E; [|done].
      apply elem_of_cons in Hc as [->|Hc].
      * apply dedupInsert_Done in E as (k & Hk & _). congruence.
      * by eapply IH.
Qed.

Lemma deduplicateCameras_covers_witness :
  (∀ c, c ∈ [replyA; replyC] → c ∈ [replyA; replyB; replyC])
  ∧ (length [replyA; replyC] <= length [replyA; replyB; replyC])%nat
  ∧ (∀ c, c ∈ [replyA; replyB; replyC] →
       ∃ c', c' ∈ [replyA; replyC] ∧ keyOf c' = keyOf c).
Proof.
  apply (deduplicateCameras_covers listOrder [replyA; replyB; replyC]
           [replyA; replyC]).
  vm_compute. reflexivity.
Defined.

End ScopeFacts.
(** ** Faults and tag extraction, where they work *)

Section FaultFacts.
Import Faults.

(** A text that does not hold the end of a pattern does not hold the
    pattern. *)
Lemma Contains_longer (s v w : string) :
  Contains s w = false → Contains s (v +:+ w) = false.
Proof.
  intros H. destruct (Contains s (v +:+ w)) eqn:E; [|done].
  unfold Contains, Index in E.
  destruct (index_nat s (v +:+ w)) as [i|] eqn:Ei; [|done].
  apply index_nat_Some in Ei as (a & b & -> & _).
  rewrite append_assoc, <- (append_assoc a v) in H.
  assert (Contains ((a +:+ v) +:+ w +:+ b) w = true)
    by apply Contains_app_r, Contains_leading.
  congruence.
Qed.

Lemma Index_nonneg_found (s p : string) : 0 <= Index s p → (Index s p =? -1) = false.
Proof. intros H. apply Z.eqb_neq. lia. Qed.

Lemma len_nonneg (s : string) : 0 <= len s.
Proof. unfold len. lia. Qed.

Lemma len_found (s : string) : (len s =? -1) = false.
Proof. apply Z.eqb_neq. unfold len. lia. Qed.

Lemma parseSOAPFault_None (resp : string) :
  parseSOAPFault resp = None ↔ containsSOAPFault resp = false.
Proof.
  unfold parseSOAPFault. cbv zeta.
  destruct (containsSOAPFault resp); simpl; [|done].
  split; [|done].
  repeat (match goal with |- context [if ?b then _ else _] => destruct b end;
          try done).
Qed.

(** X7: [parseSOAPFault] reports an error exactly when the response holds
    one of the four fault markers; a response without them is no fault
    whatever codes it mentions.  Among faults the known codes are tried in a
    fixed order and the first that occurs decides the error. *)
Theorem parseSOAPFault_nil_iff (resp : string) :
  (parseSOAPFault resp = None ↔ containsSOAPFault resp = false)
  ∧ (containsSOAPFault resp = true ↔
       Contains resp ":Fault>" = true ∨ Contains resp ":Fault " = true
       ∨ Contains resp "<Fault>" = true ∨ Contains resp "<Fault " = true)
  ∧ (containsSOAPFault resp = true →
     (Contains resp "ter:UsernameClash" = true →
        parseSOAPFault resp = Some "username already exists")
     ∧ (Contains resp "ter:UsernameClash" = false →
        Contains resp "ter:UsernameMissing" = true →
        parseSOAPFault resp = Some "username not found")
     ∧ (Contains resp "ter:UsernameClash" = false →
        Contains resp "ter:UsernameMissing" = false →
        Contains resp "ter:TooManyUsers" = true →
        parseSOAPFault resp = Some "maximum number of users reached")
     ∧ (Contains resp "ter:UsernameClash" = false →
        Contains resp "ter:UsernameMissing" = false →
        Contains resp "ter:TooManyUsers" = false →
        Contains resp "ter:FixedUser" = true →
        parseSOAPFault resp = Some "cannot modify or delete fixed user")
     ∧ (Contains resp "ter:UsernameClash" = false →
        Contains resp "ter:UsernameMissing" = false →
        Contains resp "ter:TooManyUsers" = false →
        Contains resp "ter:FixedUser" = false →
        Contains resp "ter:Password" = true →
        parseSOAPFault resp = Some "password does not meet requirements")
     ∧ (Contains resp "ter:UsernameClash" = false →
        Contains resp "ter:UsernameMissing" = false →
        Contains resp "ter:TooManyUsers" = false →
        Contains resp "ter:FixedUser" = false →
        Contains resp "ter:Password" = false →
        Contains resp "NotAuthorized" = true →
        parseSOAPFault resp = Some "not authorized")).
Proof.
  split; [|split].
  - apply parseSOAPFault_None.
  - unfold containsSOAPFault.
    destruct (Contains resp ":Fault>"), (Contains resp ":Fault "),
      (Contains resp "<Fault>"), (Contains resp "<Fault "); simpl;
      intuition congruence.
  - intros Hf. unfold parseSOAPFault. cbv zeta. rewrite Hf. simpl.
    repeat split; intros; repeat match goal with H : Contains _ _ = _ |- _ =>
                                   rewrite H; clear H end; done.
Qed.

(** X8: a fault of SOAP 1.1 is reported with its [faultstring]: when the
    response holds no known code and neither of the two closing tags that
    the Reason path looks for, and its first [faultstring] element has a
    text without "<", the error is "SOAP fault: " followed by that
    text. *)
Theorem parseSOAPFault_faultstring (resp pre msg post : string) :
  resp = pre +:+ "<faultstring>" +:+ msg +:+ "</faultstring>" +:+ post →
  containsSOAPFault resp = true →
  Forall (λ code, Contains resp code = false)
    ["ter:UsernameClash"; "ter:UsernameMissing"; "ter:TooManyUsers";
     "ter:FixedUser"; "ter:Password"; "NotAuthorized";
     "</:Text>"; "</</Text>"] →
  Contains pre "<faultstring>" = false →
  occurrences "<" msg = O →
  parseSOAPFault resp = Some ("SOAP fault: " +:+ msg).
Proof.
  intros Hresp Hf Hcodes Hpre Hmsg.
  rewrite !Forall_cons in Hcodes.
  destruct Hcodes as (H1 & H2 & H3 & H4 & H5 & H6 & Ht1 & Ht2 & _).
  unfold parseSOAPFault. cbv zeta.
  pose proof (Contains_longer resp "ter:" "NotAuthorized" H6) as H7.
  change ("ter:" +:+ "NotAuthorized") with "ter:NotAuthorized" in H7.
  rewrite Hf, H1, H2, H3, H4, H5, H6, H7. simpl.
  assert (Htext : extractTextElement (extractBetweenTags resp "Reason") = "").
  { destruct (extractBetweenTags_piece resp "Reason") as [->|(i & j & ->)];
      [done|].
    apply extractTextElement_closing_tags; apply Contains_false, Index_slice;
      by apply Contains_false. }
  rewrite Htext.
  assert (Hstart : Index resp "<faultstring>" = len pre).
  { rewrite Hresp. by apply (Index_first pre _ "faultstring>" "<"). }
  rewrite Hstart.
  assert (Hfrom : from resp (len pre + len "<faultstring>")
                  = msg +:+ "</faultstring>" +:+ post).
  { rewrite Hresp, <- len_app, <- (from_app (pre +:+ "<faultstring>")).
    by rewrite append_assoc. }
  rewrite Hfrom.
  assert (Hend : Index (msg +:+ "</faultstring>" +:+ post) "</faultstring>"
                 = len msg).
  { apply (Index_first msg _ "/faultstring>" "<"); [done|].
    by apply Contains_no_byte. }
  rewrite Hend.
  rewrite !len_found.
  assert (Hslice : slice resp (len pre + len "<faultstring>")
                     (len pre + len "<faultstring>" + len msg) = msg).
  { rewrite Hresp, <- len_app.
    rewrite <- (append_assoc pre "<faultstring>").
    apply slice_app. }
  destruct (negb (String.eqb (extractBetweenTags resp "Reason") ""));
    cbn [negb andb String.eqb]; rewrite ?len_found; cbn [negb andb];
    by rewrite Hslice.
Qed.

Lemma parseSOAPFault_faultstring_witness :
  parseSOAPFault
    "<s:Fault><faultcode>s:Client</faultcode><faultstring>Invalid request</faultstring></s:Fault>"
  = Some ("SOAP fault: " +:+ "Invalid request").
Proof.
  apply (parseSOAPFault_faultstring _ "<s:Fault><faultcode>s:Client</faultcode>"
           "Invalid request" "</s:Fault>").
  - reflexivity.
  - reflexivity.
  - repeat constructor.
  - reflexivity.
  - reflexivity.
Defined.

(** X9: for an element written without prefix and without attributes
    [extractBetweenTags] returns the text between its tags: the text must
    hold no "<", the name neither "<" nor ">", no earlier opening tag of
    that name may come before, and no closing tag with a prefix and that
    name may follow. *)
Theorem extractBetweenTags_plain (pre localName text post : string) :
  occurrences "<" localName = O →
  occurrences ">" localName = O →
  Contains pre ("<" +:+ localName +:+ ">") = false →
  occurrences "<" text = O →
  Contains (text +:+ "</" +:+ localName +:+ ">" +:+ post)
    (":" +:+ localName +:+ ">") = false →
  extractBetweenTags
    (pre +:+ "<" +:+ localName +:+ ">" +:+ text
     +:+ "</" +:+ localName +:+ ">" +:+ post) localName
  = text.
Proof.
  intros Hn1 Hn2 Hpre Htext Hclose.
  set (rest := text +:+ "</" +:+ localName +:+ ">" +:+ post) in *.
  set (s := pre +:+ "<" +:+ localName +:+ ">" +:+ rest).
  assert (Hs : s = pre +:+ String "<" (localName +:+ ">") +:+ rest).
  { unfold s. simpl. by rewrite !append_assoc. }
  assert (Hq : occurrences "<" (localName +:+ ">") = O).
  { rewrite occurrences_app, Hn1. reflexivity. }
  assert (Hopen : Index s (String "<" (localName +:+ ">")) = len pre).
  { rewrite Hs. by apply Index_first. }
  assert (Hfrom1 : from s (len pre) = String "<" localName +:+ ">" +:+ rest).
  { rewrite Hs, from_app. simpl. by rewrite append_assoc. }
  assert (Hgt : Index (String "<" localName +:+ ">" +:+ rest) ">"
                = len (String "<" localName)).
  { apply (Index_first (String "<" localName) rest "" ">"); [done|].
    apply Contains_no_byte. simpl. by rewrite Hn2. }
  assert (Hstart : len (String "<" localName) + len pre + 1
                   = len (pre +:+ String "<" (localName +:+ ">"))).
  { rewrite !len_app. unfold len. simpl. rewrite append_length. simpl. lia. }
  assert (Hfrom2 : from s (len (pre +:+ String "<" (localName +:+ ">"))) = rest).
  { rewrite Hs, <- append_assoc. apply from_app. }
  assert (Hrest : rest
                  = text +:+ String "<" ("/" +:+ localName +:+ ">") +:+ post).
  { unfold rest. simpl. by rewrite !append_assoc. }
  assert (Hend : Index rest (String "<" ("/" +:+ localName +:+ ">")) = len text).
  { rewrite Hrest.
    apply (Index_first text post ("/" +:+ localName +:+ ">") "<").
    - simpl. rewrite occurrences_app, Hn1. reflexivity.
    - by apply Contains_no_byte. }
  unfold extractBetweenTags. cbv zeta. fold s. cbn [firstIndex].
  change ("<" +:+ localName +:+ ">") with (String "<" (localName +:+ ">")).
  change ("</" +:+ localName +:+ ">")
    with (String "<" ("/" +:+ localName +:+ ">")).
  apply Contains_false in Hclose.
  rewrite Hopen. repeat (rewrite len_found; cbn [negb]).
  rewrite Hfrom1, Hgt. repeat (rewrite len_found; cbn [negb]).
  rewrite Hstart, Hfrom2, Hclose. change (-1 =? -1) with true. cbv iota.
  rewrite Hend. repeat (rewrite len_found; cbn [negb]).
  rewrite Hs, <- append_assoc, Hrest. apply slice_app.
Qed.

Lemma extractBetweenTags_plain_witness :
  extractBetweenTags
    ("<trt:MediaUri>" +:+ "<" +:+ "Uri" +:+ ">" +:+ "rtsp://10.0.0.5/stream1"
     +:+ "</" +:+ "Uri" +:+ ">" +:+ "</trt:MediaUri>") "Uri"
  = "rtsp://10.0.0.5/stream1".
Proof.
  apply (extractBetweenTags_plain "<trt:MediaUri>" "Uri"
           "rtsp://10.0.0.5/stream1" "</trt:MediaUri>"); reflexivity.
Defined.

(** X10: [extractBetweenTags] returns the empty string whenever the name
    followed by ">" occurs nowhere in the text; so it does for an element
    that is opened with attributes and never closed, or closes itself. *)
Theorem extractBetweenTags_absent (s localName : string) :
  Contains s (localName +:+ ">") = false →
  extractBetweenTags s localName = "".
Proof.
  intros H. unfold extractBetweenTags. cbv zeta.
  pose proof (Contains_longer s ":" _ H) as H1.
  pose proof (Contains_longer s "</" _ H) as H2.
  apply Contains_false in H1, H2.
  repeat (match goal with |- context [if ?b then _ else _] =>
            destruct b eqn:? end; try done).
  all: exfalso.
  all: repeat match goal with
       | E : (Index (from ?x ?i) ?p =? -1) = false |- _ =>
           apply Z.eqb_neq in E; apply E, Index_from; assumption
       end.
Qed.

Lemma extractBetweenTags_absent_witness :
  extractBetweenTags ("<OSD token=" +:+ quoted "osd_1" +:+ "/>") "OSD" = "".
Proof. apply extractBetweenTags_absent. reflexivity. Defined.

End FaultFacts.
(** ** The scan for user records *)

Section UserScanFacts.
Import Faults Users.

Lemma isByteAt_true (s : string) (i : Z) (c : ascii) :
  isByteAt s i c = true → at_ s i = Some c.
Proof.
  unfold isByteAt. destruct (at_ s i) as [x|]; [|done].
  by intros ->%Ascii.eqb_eq.
Qed.

Lemma openWalk_bounds (fuel : nat) (s : string) (idx i : Z) :
  openWalk fuel s idx i = -1
  ∨ (0 <= openWalk fuel s idx i ∧ at_ s (openWalk fuel s idx i) = Some "<"%char).
Proof.
  revert i. induction fuel as [|fuel IH]; intros i; [by left|].
  cbn [openWalk]. destruct ((0 <=? i) && (idx - 20 <? i)) eqn:E; [|by left].
  apply andb_true_iff in E as [Hi%Z.leb_le _].
  destruct (isByteAt s i "<" && _) eqn:Eb; [|apply IH].
  apply andb_true_iff in Eb as [Hb%isByteAt_true _]. by right.
Qed.

Lemma firstIndex_bounds (s q1 q2 : string) (c : ascii) :
  let r := firstIndex s [String c q1; String c q2] in
  r = -1 ∨ (0 <= r ∧ at_ s r = Some c).
Proof.
  cbv zeta. cbn [firstIndex].
  destruct (Index s (String c q1) =? -1) eqn:E1; cbn [negb].
  - destruct (Index s (String c q2) =? -1) eqn:E2; cbn [negb]; [by left|].
    apply Z.eqb_neq in E2. right. split; [|by apply at_Index].
    destruct (Index_bounds s (String c q2)); [done|lia].
  - apply Z.eqb_neq in E1. right. split; [|by apply at_Index].
    destruct (Index_bounds s (String c q1)); [done|lia].
Qed.

(** The search after a prefixed marker: no result, or the index of a "<". *)
Lemma prefixedOpen_bounds (s marker : string) :
  let idx := Index s marker in
  let found := if negb (idx =? -1) then openWalk 20 s idx (idx - 1) else -1 in
  found = -1 ∨ (0 <= found ∧ at_ s found = Some "<"%char).
Proof.
  cbv zeta. destruct (negb (Index s marker =? -1)); [|by left].
  apply openWalk_bounds.
Qed.

Lemma findTagOpen_at (s localName : string) :
  findTagOpen s localName = -1
  ∨ (0 <= findTagOpen s localName
     ∧ at_ s (findTagOpen s localName) = Some "<"%char).
Proof.
  unfold findTagOpen. cbv zeta.
    pose proof (prefixedOpen_bounds s (":" +:+ localName +:+ ">")) as H1.
    pose proof (prefixedOpen_bounds s (":" +:+ localName +:+ " ")) as H2.
    pose proof (firstIndex_bounds s (localName +:+ ">") (localName +:+ " ")
                  "<") as H3.
    cbv zeta in H1, H2, H3.
    change (String "<" (localName +:+ ">")) with ("<" +:+ localName +:+ ">")
      in H3.
    change (String "<" (localName +:+ " ")) with ("<" +:+ localName +:+ " ")
      in H3.
    revert H1 H2 H3.
    generalize (if negb (Index s (":" +:+ localName +:+ ">") =? -1)
                then openWalk 20 s (Index s (":" +:+ localName +:+ ">"))
                       (Index s (":" +:+ localName +:+ ">") - 1)
                else -1).
    generalize (if negb (Index s (":" +:+ localName +:+ " ") =? -1)
                then openWalk 20 s (Index s (":" +:+ localName +:+ " "))
                       (Index s (":" +:+ localName +:+ " ") - 1)
                else -1).
    generalize (firstIndex s ["<" +:+ localName +:+ ">";
                              "<" +:+ localName +:+ " "]).
    intros f3 f2 f1 H1 H2 H3.
    destruct (Z.eqb_spec f1 (-1)); cbn [negb]; [|tauto].
    destruct (Z.eqb_spec f2 (-1)); cbn [negb]; tauto.
Qed.

(** X11: what [findTagOpen] returns is [-1] or the index of a "<" of the
    string; so the slice from it is within bounds. *)
Theorem findTagOpen_bounds (s localName : string) :
  findTagOpen s localName = -1
  ∨ (0 <= findTagOpen s localName < len s
     ∧ at_ s (findTagOpen s localName) = Some "<"%char).
Proof.
  destruct (findTagOpen_at s localName) as [?|[H0 Hat]]; [by left|right].
  split; [|done]. apply at_Some_bounds in Hat. lia.
Qed.

Lemma len_from (s : string) (i : Z) :
  0 <= i <= len s → len (from s i) = len s - i.
Proof. unfold len, from. rewrite length_drop. lia. Qed.

Lemma closeScan_bounds (fuel : nat) (s marker : string) (i : Z) :
  0 <= i → 0 < len marker →
  closeScan fuel s marker i = -1
  ∨ (i < closeScan fuel s marker i <= len s).
Proof.
  intros Hi Hm. revert i Hi. induction fuel as [|fuel IH]; intros i Hi;
    [by left|].
  cbn [closeScan]. cbv zeta.
  destruct (Z.ltb_spec i (len s)) as [Hlt|]; [|by left].
  destruct (Z.eqb_spec (Index (from s i) marker) (-1)) as [|Hne]; [by left|].
  destruct (Index_bounds (from s i) marker) as [|[H0 Hfit]]; [done|].
  rewrite len_from in Hfit by lia.
  destruct (closeWalk 20 s _ _).
  - right. lia.
  - destruct (IH (i + Index (from s i) marker + len marker)) as [->|H];
      [lia|by left|right; lia].
Qed.

(** More rounds than the string has bytes change nothing. *)
Lemma closeScan_fuel (s marker : string) : ∀ (fuel fuel' : nat) (i : Z),
  0 <= i → 0 < len marker →
  len s - i <= Z.of_nat fuel → len s - i <= Z.of_nat fuel' →
  closeScan fuel s marker i = closeScan fuel' s marker i.
Proof.
  induction fuel as [|fuel IH]; intros fuel' i Hi Hm Hf Hf'.
  - destruct fuel' as [|fuel']; [done|]. cbn [closeScan].
    by destruct (Z.ltb_spec i (len s)); [lia|].
  - destruct fuel' as [|fuel'].
    + cbn [closeScan]. by destruct (Z.ltb_spec i (len s)); [lia|].
    + cbn [closeScan]. cbv zeta.
      destruct (Z.ltb_spec i (len s)) as [Hlt|]; [|done].
      destruct (Z.eqb_spec (Index (from s i) marker) (-1)) as [|Hne]; [done|].
      destruct (closeWalk 20 s _ _); [done|].
      destruct (Index_bounds (from s i) marker) as [|[H0 Hfit]]; [done|].
      apply IH; lia.
Qed.

Lemma len_marker (a localName b : string) :
  a ≠ "" → 0 < len (a +:+ localName +:+ b).
Proof. destruct a; [done|]. intros _. unfold len. simpl. lia. Qed.

Lemma findTagClose_range (s localName : string) :
  findTagClose s localName = -1 ∨ 0 < findTagClose s localName <= len s.
Proof.
  unfold findTagClose. cbv zeta.
  destruct (closeScan_bounds (String.length s) s
              (":" +:+ localName +:+ ">") 0) as [->|H];
    [lia|by apply len_marker| |].
  - change (negb (-1 =? -1)) with false. cbv iota.
    destruct (Z.eqb_spec (Index s ("</" +:+ localName +:+ ">")) (-1));
      cbn [negb]; [by left|right].
    destruct (Index_bounds s ("</" +:+ localName +:+ ">")) as [|[H0 Hfit]];
      [done|].
    assert (0 < len ("</" +:+ localName +:+ ">")) by by apply len_marker.
    lia.
  - destruct (Z.eqb_spec (closeScan (String.length s) s
                (":" +:+ localName +:+ ">") 0) (-1)); [lia|].
    cbn [negb]. right. lia.
Qed.

(** X12: what [findTagClose] returns is [-1] or an offset after the start
    and within the string, so the caller's slices are within bounds and its
    loop moves on; the scan for the marker needs no more rounds than the
    string has bytes. *)
Theorem findTagClose_bounds (s localName : string) :
  (findTagClose s localName = -1 ∨ 0 < findTagClose s localName <= len s)
  ∧ (∀ fuel, (String.length s <= fuel)%nat →
       closeScan fuel s (":" +:+ localName +:+ ">") 0
       = closeScan (String.length s) s (":" +:+ localName +:+ ">") 0).
Proof.
  split; [apply findTagClose_range|].
  intros fuel Hfuel. apply closeScan_fuel; [lia|by apply len_marker|..];
    unfold len; lia.
Qed.

(** One round of the loop of [GetUsers] takes a slice within the string
    and leaves a shorter rest. *)
Lemma user_record_bounds (respStr : string) :
  findTagOpen respStr "User" ≠ -1 →
  findTagClose (from respStr (findTagOpen respStr "User")) "User" ≠ -1 →
  0 <= findTagOpen respStr "User"
  ∧ 0 < findTagClose (from respStr (findTagOpen respStr "User")) "User"
  ∧ findTagOpen respStr "User"
    + findTagClose (from respStr (findTagOpen respStr "User")) "User"
    <= len respStr.
Proof.
  intros Hs He.
  destruct (findTagOpen_at respStr "User") as [|[Hi Hat]]; [done|].
  apply at_Some_bounds in Hat.
  destruct (findTagClose_range (from respStr (findTagOpen respStr "User"))
              "User") as [|Hr]; [done|].
  rewrite len_from in Hr by lia. lia.
Qed.

Lemma usersLoop_fuel (n : nat) : ∀ (respStr : string) (users : list User)
  (fuel fuel' : nat),
  (String.length respStr <= n)%nat → (n <= fuel)%nat → (n <= fuel')%nat →
  usersLoop fuel respStr users = usersLoop fuel' respStr users.
Proof.
  induction n as [|n IH]; intros respStr users fuel fuel' Hlen Hf Hf'.
  - destruct respStr; [|simpl in Hlen; lia].
    by destruct fuel, fuel'.
  - destruct fuel as [|fuel]; [lia|]. destruct fuel' as [|fuel']; [lia|].
    cbn [usersLoop]. cbv zeta.
    destruct (Z.eqb_spec (findTagOpen respStr "User") (-1)) as [|Hs]; [done|].
    destruct (Z.eqb_spec
                (findTagClose (from respStr (findTagOpen respStr "User")) "User")
                (-1)) as [|He]; [done|].
    destruct (user_record_bounds respStr Hs He) as (H0 & H1 & H2).
    apply IH; [|lia..].
    match goal with
    | |- (String.length (from ?s ?i) <= _)%nat =>
        pose proof (len_from s i) as Hl
    end.
    unfold len in Hl, H2. lia.
Qed.

Lemma usersLoop_named (fuel : nat) : ∀ (respStr : string) (users : list User),
  Forall (λ u, Username u ≠ "") users →
  Forall (λ u, Username u ≠ "") (usersLoop fuel respStr users).
Proof.
  induction fuel as [|fuel IH]; intros respStr users Hall; [done|].
  cbn [usersLoop]. cbv zeta.
  destruct (_ =? -1); [done|]. destruct (_ =? -1); [done|].
  apply IH. cbn [Username].
  destruct (String.eqb_spec (extractBetweenTags
    (slice respStr (findTagOpen respStr "User")
       (findTagOpen respStr "User"
        + findTagClose (from respStr (findTagOpen respStr "User")) "User"))
    "Username") ""); cbn [negb]; [done|].
  apply Forall_app. split; [done|]. by constructor.
Qed.

(** X13: the fallback loop of [GetUsers] ends on every response: more
    rounds than the response has bytes change nothing.  Each round slices
    within the bounds of the string, and every user it collects has a name
    that is not empty. *)
Theorem usersLoop_terminates (respStr : string) :
  (∀ fuel users, (String.length respStr <= fuel)%nat →
     usersLoop fuel respStr users
     = usersLoop (String.length respStr) respStr users)
  ∧ (∀ fuel, Forall (λ u, Username u ≠ "") (usersLoop fuel respStr []))
  ∧ (findTagOpen respStr "User" ≠ -1 →
     findTagClose (from respStr (findTagOpen respStr "User")) "User" ≠ -1 →
     0 <= findTagOpen respStr "User"
     ∧ 0 < findTagClose (from respStr (findTagOpen respStr "User")) "User"
     ∧ findTagOpen respStr "User"
       + findTagClose (from respStr (findTagOpen respStr "User")) "User"
       <= len respStr).
Proof.
  split; [|split].
  - intros fuel users Hfuel.
    by apply (usersLoop_fuel (String.length respStr)).
  - intros fuel. by apply usersLoop_named.
  - apply user_record_bounds.
Qed.

(** X14: [GetUsers] returns users only without an error.  It returns no
    user and no error only when the request went through, the response
    holds no fault marker, and "Username>" occurs nowhere in it: a response
    that names a user is never taken for an empty user list.  An error of
    the transport comes back wrapped, a fault as the classifier words it. *)
Theorem GetUsers_empty (w : Soap.World)
  (unmarshal : string → option (list (string * string)))
  (c : Soap.Client) (camera : Camera) :
  let send := Soap.sendSOAPRequest w c (getFirstAddress (Address camera))
                "http://www.onvif.org/ver10/device/wsdl/GetUsers"
                "<tds:GetUsers/>" in
  (∀ err, (GetUsers w unmarshal c camera).2 = Some err →
          (GetUsers w unmarshal c camera).1 = [])
  ∧ (GetUsers w unmarshal c camera = ([], None) →
     ∃ resp, send = (Some resp, None)
             ∧ containsSOAPFault resp = false
             ∧ Contains resp "Username>" = false)
  ∧ (∀ err, send.2 = Some err →
       GetUsers w unmarshal c camera
       = ([], Some ("failed to get users: " +:+ err)))
  ∧ (∀ resp err, send = (Some resp, None) → parseSOAPFault resp = Some err →
       GetUsers w unmarshal c camera = ([], Some err)).
Proof.
  cbv zeta. unfold GetUsers.
  assert (Hsend : ∀ w c e a b, (Soap.sendSOAPRequest w c e a b).2 = None →
            ∃ resp, Soap.sendSOAPRequest w c e a b = (Some resp, None)).
  { intros w' c' e a b. unfold Soap.sendSOAPRequest.
    destruct (Soap.exchange _ _); try done.
    destruct (_ >=? 400); [destruct (_ =? 0); done|]. by eexists. }
  destruct (Soap.sendSOAPRequest w c _ _ _) as [resp [err|]] eqn:E.
  { repeat split; try done. simpl. by intros ? [= <-]. }
  destruct (Hsend w c _ _ _ ltac:(by rewrite E)) as [r Hr].
  rewrite E in Hr. injection Hr as ->. cbn [default from_option id].
  destruct (parseSOAPFault r) as [e|] eqn:Ef.
  { split; [done|]. split; [done|]. split; [by intros err|].
    intros resp err [= <-]. rewrite Ef. by intros [= <-]. }
  pose proof (proj1 (parseSOAPFault_None r) Ef) as Hnf.
  assert (Hfb : ∀ users : list User,
    (if (Z.of_nat (length users) =? 0) && Contains r "Username>"
     then ([], Some "failed to parse GetUsers response")
     else (users, None)) = ([], None) → Contains r "Username>" = false).
  { intros users. destruct users as [|u users]; simpl.
    - by destruct (Contains r "Username>").
    - done. }
  assert (Hfe : ∀ (users : list User) err,
    (if (Z.of_nat (length users) =? 0) && Contains r "Username>"
     then ([], Some "failed to parse GetUsers response")
     else (users, None)).2 = Some err →
    (if (Z.of_nat (length users) =? 0) && Contains r "Username>"
     then ([] : list User, Some "failed to parse GetUsers response")
     else (users, None)).1 = []).
  { intros users err. by destruct (_ && _). }
  split; [|split; [|split]].
  - intros err. destruct (unmarshal r) as [[|u us]|]; try done; apply Hfe.
  - intros H. exists r. split; [done|]. split; [done|].
    destruct (unmarshal r) as [[|u us]|]; try done; by eapply Hfb.
  - by intros err.
  - intros resp err [= <-]. by rewrite Ef.
Qed.

End UserScanFacts.
(** ** Outcomes of a request *)

Section TransportFacts.
Import Soap ClientInfo.

(** X15: [sendSOAPRequest] never returns neither body nor error.  Without
    error it returns the body of a response whose status is below 400; a
    body together with an error means a status of 400 or more and a body
    that is not empty; a failure before the response was read gives no
    body. *)
Theorem sendSOAPRequest_outcomes (w : World) (c : Client)
  (endpoint action body : string) :
  let result := sendSOAPRequest w c endpoint action body in
  let fate := exchange w (newRequest w c endpoint action body) in
  result ≠ (None, None)
  ∧ (result.2 = None →
       ∃ StatusCode respBody,
         fate = Response StatusCode respBody ∧ StatusCode < 400
         ∧ result = (Some respBody, None))
  ∧ (∀ respBody err, result = (Some respBody, Some err) →
       ∃ StatusCode,
         fate = Response StatusCode respBody ∧ 400 <= StatusCode
         ∧ respBody ≠ "")
  ∧ (∀ err, fate = NewRequestFails err ∨ fate = DoFails err
            ∨ fate = ReadAllFails err →
       result = (None, Some err)).
Proof.
  cbv zeta. unfold sendSOAPRequest.
  destruct (exchange w _) as [e|e|e|code rb] eqn:E.
  1-3: repeat split; try done; intros; destruct_or?; simplify_eq; done.
  destruct (Z.geb_spec code 400) as [Hge|Hlt].
  - destruct (Z.eqb_spec (len rb) 0) as [H0|Hn0].
    + repeat split; try done. intros; destruct_or?; simplify_eq.
    + repeat split; try done.
      * intros ?? [= <- <-]. exists code. repeat split; [lia|].
        intros ->. by apply Hn0.
      * intros; destruct_or?; simplify_eq.
  - repeat split; try done.
    + intros _. exists code, rb. repeat split. lia.
    + intros; destruct_or?; simplify_eq.
Qed.

(** X16: the request never goes out with a timeout of zero, which the HTTP
    client would take for "no timeout": a client whose timeout is zero is
    served with ten seconds, so a client made by [NewClientWithTimeout]
    with zero sends the very request of one made by [NewClient]; any other
    timeout is passed on as it is.  Certificates are checked unless the
    client asks otherwise, and the clients of both constructors do not. *)
Theorem newRequest_timeout (w : World) (c : Client)
  (endpoint action body : string) :
  (Timeout c = 0 →
     ClientTimeout (newRequest w c endpoint action body) = 10 * second)
  ∧ (Timeout c ≠ 0 →
     ClientTimeout (newRequest w c endpoint action body) = Timeout c)
  ∧ ClientTimeout (newRequest w c endpoint action body) ≠ 0
  ∧ (∀ username password,
       newRequest w (NewClientWithTimeout username password 0)
         endpoint action body
       = newRequest w (NewClient username password) endpoint action body
       ∧ sendSOAPRequest w (NewClientWithTimeout username password 0)
           endpoint action body
         = sendSOAPRequest w (NewClient username password)
             endpoint action body)
  ∧ InsecureSkipVerify (newRequest w c endpoint action body) = InsecureTLS c
  ∧ (∀ username password timeout,
       InsecureSkipVerify
         (newRequest w (NewClientWithTimeout username password timeout)
            endpoint action body) = false).
Proof.
  unfold newRequest. cbv zeta. cbn [ClientTimeout InsecureSkipVerify].
  destruct (Z.eqb_spec (Timeout c) 0) as [H0|Hn0].
  - repeat split; try done.
    all: try (unfold sendSOAPRequest, newRequest; reflexivity).
  - repeat split; try done.
    all: try (unfold sendSOAPRequest, newRequest; reflexivity).
Qed.

End TransportFacts.

(** ** Service addresses *)

Section UrlFacts.
Import ClientInfo Urls.

Lemma HasPrefix_nil (old : string) : old ≠ "" → HasPrefix "" old = false.
Proof. by destruct old. Qed.

(** [Replace] with a count of one rewrites the first occurrence and
    nothing else. *)
Lemma replaceFrom_once (old new s : string) :
  old ≠ "" →
  replaceFrom old new O 1 s
  = match index_nat s old with
    | Some i => take i s +:+ new +:+ drop (i + String.length old) s
    | None => s
    end.
Proof.
  intros Hold. induction s as [|c s IH].
  - cbn [replaceFrom index_nat]. by rewrite HasPrefix_nil.
  - rewrite index_nat_cons. cbn [replaceFrom].
    change (negb (1 =? 0)) with true. cbn [andb].
    destruct (HasPrefix (String c s) old) eqn:Ep.
    + apply HasPrefix_inv in Ep as [v Hv].
      destruct old as [|x old]; [done|]. cbn [String.append] in Hv.
      injection Hv as -> ->.
      cbn [String.length take drop Nat.add Nat.sub String.append].
      rewrite Nat.sub_0_r, drop_app. change (1 - 1) with 0.
      by rewrite replaceFrom_skip, replaceFrom_done.
    + rewrite IH. destruct (index_nat s old) as [i|]; [|done].
      cbn [fmap option_fmap option_map]. reflexivity.
Qed.

Lemma Replace_once (s old new : string) :
  old ≠ "" → old ≠ new →
  Replace s old new 1
  = match index_nat s old with
    | Some i => take i s +:+ new +:+ drop (i + String.length old) s
    | None => s
    end.
Proof.
  intros Hold Hnew. unfold Replace.
  destruct (String.eqb_spec old ""); [done|].
  destruct (String.eqb_spec old new); [done|].
  by apply replaceFrom_once.
Qed.

Lemma Replace_absent (s old new : string) :
  Contains s old = false → Replace s old new 1 = s.
Proof.
  intros H%Contains_false. unfold Replace.
  destruct (String.eqb_spec old ""); [done|].
  destruct (String.eqb_spec old new); [done|].
  rewrite replaceFrom_once by done. unfold Index in H.
  destruct (index_nat s old); [lia|done].
Qed.

Lemma Replace_present (s old new : string) :
  old ≠ "" → old ≠ new → Contains s old = true →
  Contains (Replace s old new 1) new = true.
Proof.
  intros Hold Hnew H. rewrite Replace_once by done.
  unfold Contains, Index in H.
  destruct (index_nat s old) as [i|]; [|done].
  apply Contains_app_r, Contains_leading.
Qed.

Lemma Replace_at (base rest q new : string) (c : ascii) :
  String c q ≠ new → occurrences c q = O →
  Contains base (String c q) = false →
  Replace (base +:+ String c q +:+ rest) (String c q) new 1
  = base +:+ new +:+ rest.
Proof.
  intros Hnew Hq Hb%Contains_false. rewrite Replace_once by done.
  unfold Index in Hb.
  rewrite (index_nat_first base rest q c Hq)
    by (destruct (index_nat base (String c q)); [lia|done]).
  rewrite take_app. f_equal. f_equal.
  rewrite <- (drop_app (base +:+ String c q) rest) at 2.
  by rewrite append_length, append_assoc.
Qed.

(** The second replacement of the three address functions never changes
    the result. *)
Lemma replace_fallback (address word pre : string) :
  let old := "/device_service" in
  let new := "/" +:+ word in
  old ≠ new →
  (if negb (Contains (Replace address old new 1) word)
   then Replace address (pre +:+ old) (pre +:+ new) 1
   else Replace address old new 1)
  = Replace address old new 1.
Proof.
  cbv zeta. intros Hnew.
  destruct (Contains (Replace address _ _ 1) word) eqn:E; [done|].
  cbn [negb].
  destruct (Contains address "/device_service") eqn:Ea.
  - apply (Replace_present _ _ ("/" +:+ word)) in Ea; [|done..].
    pose proof (Contains_longer _ "/" _ E) as E'. congruence.
  - rewrite (Replace_absent address "/device_service") by done.
    apply Replace_absent. by apply Contains_longer.
Qed.

(** X17: in [resolveMediaURL], [getMedia2URL] and [resolveImagingURL] the
    fallback on [/onvif/device_service] never takes effect: the result is
    always what the first replacement gives.  So an address without
    [/device_service] is returned as it is, and otherwise the first
    [/device_service] alone is rewritten.  A URL recorded on the camera
    wins over the address. *)
Theorem service_url_first_replace (camera : Camera) (address : string) :
  getMedia2URL address = Replace address "/device_service" "/media2" 1
  ∧ resolveMediaURL camera
    = (if String.eqb (MediaURL camera) ""
       then Replace (getFirstAddress (Address camera))
              "/device_service" "/media_service" 1
       else MediaURL camera)
  ∧ resolveImagingURL camera
    = (if String.eqb (ImagingURL camera) ""
       then Replace (getFirstAddress (Address camera))
              "/device_service" "/imaging" 1
       else ImagingURL camera)
  ∧ (Contains address "/device_service" = false →
     getMedia2URL address = address)
  ∧ (Contains (getFirstAddress (Address camera)) "/device_service" = false →
     (MediaURL camera = "" →
      resolveMediaURL camera = getFirstAddress (Address camera))
     ∧ (ImagingURL camera = "" →
        resolveImagingURL camera = getFirstAddress (Address camera)))
  ∧ (∀ base rest, Contains base "/device_service" = false →
     getMedia2URL (base +:+ "/device_service" +:+ rest)
     = base +:+ "/media2" +:+ rest).
Proof.
  assert (H2 : ∀ a, getMedia2URL a = Replace a "/device_service" "/media2" 1).
  { intros a. apply (replace_fallback a "media2" "/onvif"). by cbn. }
  assert (Hm : resolveMediaURL camera
    = (if String.eqb (MediaURL camera) ""
       then Replace (getFirstAddress (Address camera))
              "/device_service" "/media_service" 1
       else MediaURL camera)).
  { unfold resolveMediaURL.
    destruct (String.eqb (MediaURL camera) ""); [|done]. cbn [negb].
    apply (replace_fallback _ "media_service" "/onvif"). by cbn. }
  assert (Hi : resolveImagingURL camera
    = (if String.eqb (ImagingURL camera) ""
       then Replace (getFirstAddress (Address camera))
              "/device_service" "/imaging" 1
       else ImagingURL camera)).
  { unfold resolveImagingURL.
    destruct (String.eqb (ImagingURL camera) ""); [|done]. cbn [negb].
    apply (replace_fallback _ "imaging" "/onvif"). by cbn. }
  split; [done|]. split; [done|]. split; [done|]. split; [|split].
  - intros Ha. rewrite H2. by apply Replace_absent.
  - intros Ha. split; intros Hu.
    + rewrite Hm, Hu. by apply Replace_absent.
    + rewrite Hi, Hu. by apply Replace_absent.
  - intros base rest Hb. rewrite H2.
    by apply (Replace_at base rest "device_service" "/media2" "/").
Qed.

End UrlFacts.

(** ** Escaping keeps texts apart *)

Section EscapeFacts.
Import Faults.

(** The number of bytes that [escapeXML] adds for a byte. *)
Lemma length_escapeByte (c : ascii) :
  String.length (escapeByte c)
  = (1 + 4 * occurrences "&" (String c "") + 3 * occurrences "<" (String c "")
     + 3 * occurrences ">" (String c "") + 5 * occurrences "'" (String c "")
     + 5 * occurrences "034" (String c ""))%nat.
Proof.
  unfold escapeByte. cbn [occurrences].
  destruct (Ascii.eqb_spec c "&") as [->|]; [reflexivity|].
  destruct (Ascii.eqb_spec c "<") as [->|]; [reflexivity|].
  destruct (Ascii.eqb_spec c ">") as [->|]; [reflexivity|].
  destruct (Ascii.eqb_spec c "'") as [->|]; [reflexivity|].
  destruct (Ascii.eqb_spec c "034") as [->|]; reflexivity.
Qed.

Lemma length_escapeXML (s : string) :
  String.length (escapeXML s)
  = (String.length s + 4 * occurrences "&" s + 3 * occurrences "<" s
     + 3 * occurrences ">" s + 5 * occurrences "'" s
     + 5 * occurrences "034" s)%nat.
Proof.
  induction s as [|c s IH]; [done|].
  rewrite escapeXML_cons, append_length, IH, length_escapeByte.
  cbn [occurrences String.length]. lia.
Qed.

Lemma expand_escapeByte_inj (s s' : string) :
  expand escapeByte s = expand escapeByte s' → s = s'.
Proof.
  revert s'. induction s as [|c s IH]; intros [|c' s'].
  - done.
  - cbn [expand]. unfold escapeByte.
    repeat (match goal with |- context [Ascii.eqb ?a ?b] =>
              destruct (Ascii.eqb a b) end); done.
  - cbn [expand]. unfold escapeByte.
    repeat (match goal with |- context [Ascii.eqb ?a ?b] =>
              destruct (Ascii.eqb a b) end); done.
  - cbn [expand]. unfold escapeByte.
    destruct (Ascii.eqb_spec c "&") as [->|];
      [|destruct (Ascii.eqb_spec c "<") as [->|];
        [|destruct (Ascii.eqb_spec c ">") as [->|];
          [|destruct (Ascii.eqb_spec c "'") as [->|];
            [|destruct (Ascii.eqb_spec c "034") as [->|]]]]];
    (destruct (Ascii.eqb_spec c' "&") as [->|];
      [|destruct (Ascii.eqb_spec c' "<") as [->|];
        [|destruct (Ascii.eqb_spec c' ">") as [->|];
          [|destruct (Ascii.eqb_spec c' "'") as [->|];
            [|destruct (Ascii.eqb_spec c' "034") as [->|]]]]]);
    cbn [String.append]; intros Heq; try discriminate Heq;
    try (injection Heq as Heq; by rewrite (IH _ Heq));
    try (injection Heq as Hc Heq; try rewrite (IH _ Heq); congruence).
Qed.

(** X18: [escapeXML] keeps different texts different, so two user names
    are never sent as the same one; it adds four bytes for each ampersand,
    three for each angle bracket and five for each quote, and leaves
    exactly the texts without these five bytes as they are. *)
Theorem escapeXML_injective (s s' : string) :
  (escapeXML s = escapeXML s' → s = s')
  ∧ String.length (escapeXML s)
    = (String.length s + 4 * occurrences "&" s + 3 * occurrences "<" s
       + 3 * occurrences ">" s + 5 * occurrences "'" s
       + 5 * occurrences "034" s)%nat
  ∧ (escapeXML s = s ↔
     occurrences "&" s = O ∧ occurrences "<" s = O ∧ occurrences ">" s = O
     ∧ occurrences "'" s = O ∧ occurrences "034" s = O).
Proof.
  split; [|split].
  - rewrite !escapeXML_expand. apply expand_escapeByte_inj.
  - apply length_escapeXML.
  - split.
    + intros H. pose proof (length_escapeXML s) as Hl. rewrite H in Hl. lia.
    + intros (Ha & Hl & Hg & Hq & Hd). rewrite escapeXML_expand.
      induction s as [|c s IH]; [done|].
      cbn [occurrences] in Ha, Hl, Hg, Hq, Hd. cbn [expand].
      unfold escapeByte at 1.
      destruct (Ascii.eqb c "&"); [simpl in Ha; lia|].
      destruct (Ascii.eqb c "<"); [simpl in Hl; lia|].
      destruct (Ascii.eqb c ">"); [simpl in Hg; lia|].
      destruct (Ascii.eqb c "'"); [simpl in Hq; lia|].
      destruct (Ascii.eqb c "034"); [simpl in Hd; lia|].
      cbn [String.append]. f_equal. apply IH; simpl in *; lia.
Qed.

End EscapeFacts.

(** ** The token scan of GetOSDs *)

Section OsdFacts.
Import Faults Urls Osd.

(** The text before the first occurrence of a byte does not hold it. *)
Lemma take_first_byte (s : string) (c : ascii) (i : nat) :
  index_nat s (String c "") = Some i → occurrences c (take i s) = O.
Proof.
  revert i. induction s as [|x s IH]; intros i; rewrite ?index_nat_cons.
  - cbn [index_nat HasPrefix]. done.
  - cbn [HasPrefix]. destruct (Ascii.eqb_spec x c) as [->|Hx]; cbn [andb].
    + by intros [= <-].
    + destruct (index_nat s (String c "")) as [j|]; [|done].
      intros [= <-]. cbn [take occurrences].
      destruct (Ascii.eqb_spec x c); [done|]. by rewrite (IH j).
Qed.

Lemma slice_take (s : string) (i j : Z) :
  0 <= j → slice s i (i + j) = take (Z.to_nat j) (from s i).
Proof. intros Hj. unfold slice, from. by replace (i + j - i) with j by lia. Qed.

Lemma osdLoop_acc (fuel : nat) : ∀ (remaining : string)
  (configs : list OSDConfig),
  osdLoop fuel remaining configs
  = (configs ++ osdLoop fuel remaining [])%list.
Proof.
  induction fuel as [|fuel IH]; intros remaining configs.
  - by rewrite app_nil_r.
  - cbn [osdLoop]. cbv zeta.
    destruct (Index remaining tokenMarker =? -1); [by rewrite app_nil_r|].
    destruct (Index (from remaining _) quote =? -1); [by rewrite app_nil_r|].
    destruct (Contains _ "OSD" || Contains _ "osd"); [|apply IH].
    rewrite (IH _ (configs ++ _)%list), (IH _ ([] ++ _)%list).
    cbn [app]. by rewrite <- app_assoc.
Qed.

Lemma osd_round_bounds (remaining : string) :
  let start := Index remaining tokenMarker + len tokenMarker in
  let end_ := Index (from remaining start) quote in
  Index remaining tokenMarker ≠ -1 → end_ ≠ -1 →
  7 <= start ∧ 0 <= end_ ∧ start + end_ < len remaining.
Proof.
  cbv zeta. intros Hi He.
  destruct (Index_bounds remaining tokenMarker) as [|[H0 Hfit]]; [done|].
  destruct (Index_bounds
              (from remaining (Index remaining tokenMarker + len tokenMarker))
              quote) as [|[H1 Hfit']]; [done|].
  change (len tokenMarker) with 7 in *. change (len quote) with 1 in *.
  rewrite len_from in Hfit' by lia. lia.
Qed.

Lemma osdLoop_fuel (n : nat) : ∀ (remaining : string)
  (configs : list OSDConfig) (fuel fuel' : nat),
  (String.length remaining <= n)%nat → (n <= fuel)%nat → (n <= fuel')%nat →
  osdLoop fuel remaining configs = osdLoop fuel' remaining configs.
Proof.
  induction n as [|n IH]; intros remaining configs fuel fuel' Hlen Hf Hf'.
  - destruct remaining; [|simpl in Hlen; lia].
    by destruct fuel, fuel'.
  - destruct fuel as [|fuel]; [lia|]. destruct fuel' as [|fuel']; [lia|].
    cbn [osdLoop]. cbv zeta.
    destruct (Z.eqb_spec (Index remaining tokenMarker) (-1)) as [|Hi];
      [done|].
    destruct (Z.eqb_spec
      (Index (from remaining (Index remaining tokenMarker + len tokenMarker))
         quote) (-1)) as [|He]; [done|].
    destruct (osd_round_bounds remaining Hi He) as (H0 & H1 & H2).
    apply IH; [|lia..].
    match goal with
    | |- (String.length (from ?s ?i) <= _)%nat =>
        pose proof (len_from s i) as Hl
    end.
    unfold len in Hl, H0, H1, H2 |- *. lia.
Qed.

Lemma osdLoop_scanned (fuel : nat) : ∀ (remaining : string)
  (configs : list OSDConfig),
  Forall scanned configs → Forall scanned (osdLoop fuel remaining configs).
Proof.
  induction fuel as [|fuel IH]; intros remaining configs Hall; [done|].
  cbn [osdLoop]. cbv zeta.
  destruct (Z.eqb_spec (Index remaining tokenMarker) (-1)) as [|Hi]; [done|].
  destruct (Z.eqb_spec
    (Index (from remaining (Index remaining tokenMarker + len tokenMarker))
       quote) (-1)) as [|He]; [done|].
  apply IH.
  destruct (Contains _ "OSD" || Contains _ "osd") eqn:Ek; [|done].
  apply Forall_app. split; [done|]. constructor; [|done].
  unfold scanned. cbn [Token Type_ VideoSourceToken].
  split; [by apply orb_true_iff|]. split; [|done].
  destruct (osd_round_bounds remaining Hi He) as (H0 & H1 & H2).
  rewrite slice_take by done. revert He H1. unfold Index, quote.
  destruct (index_nat _ _) as [i|] eqn:Ei; [|done]. intros _ _.
  rewrite Nat2Z.id. by apply take_first_byte.
Qed.

(** One round on a response that reads: text without the marker, marker,
    token, double quote, rest. *)
Lemma osdLoop_round (fuel : nat) (pre tok post : string)
  (configs : list OSDConfig) :
  Contains pre tokenMarker = false → occurrences "034" tok = O →
  osdLoop (S fuel) (pre +:+ tokenMarker +:+ tok +:+ quote +:+ post) configs
  = osdLoop fuel (quote +:+ post) (configs ++ keepToken tok).
Proof.
  intros Hpre Htok. cbn [osdLoop]. cbv zeta.
  assert (Hidx : Index (pre +:+ tokenMarker +:+ tok +:+ quote +:+ post)
                   tokenMarker = len pre).
  { by apply (Index_first pre (tok +:+ quote +:+ post) ("oken=" +:+ quote)
                "t"). }
  rewrite Hidx, len_found.
  assert (Hfrom : from (pre +:+ tokenMarker +:+ tok +:+ quote +:+ post)
                    (len pre + len tokenMarker) = tok +:+ quote +:+ post).
  { replace (pre +:+ tokenMarker +:+ tok +:+ quote +:+ post)
      with ((pre +:+ tokenMarker) +:+ tok +:+ quote +:+ post)
      by (by rewrite !append_assoc).
    rewrite <- len_app. apply from_app. }
  rewrite Hfrom.
  assert (Hend : Index (tok +:+ quote +:+ post) quote = len tok).
  { apply (Index_first tok post "" "034"); [done|].
    by apply Contains_no_byte. }
  rewrite Hend, len_found.
  assert (Hslice : slice (pre +:+ tokenMarker +:+ tok +:+ quote +:+ post)
                     (len pre + len tokenMarker)
                     (len pre + len tokenMarker + len tok) = tok).
  { replace (pre +:+ tokenMarker +:+ tok +:+ quote +:+ post)
      with ((pre +:+ tokenMarker) +:+ tok +:+ quote +:+ post)
      by (by rewrite !append_assoc).
    rewrite <- len_app. apply slice_app. }
  rewrite Hslice.
  assert (Hrest : from (pre +:+ tokenMarker +:+ tok +:+ quote +:+ post)
                    (len pre + len tokenMarker + len tok) = quote +:+ post).
  { replace (pre +:+ tokenMarker +:+ tok +:+ quote +:+ post)
      with (((pre +:+ tokenMarker) +:+ tok) +:+ quote +:+ post)
      by (by rewrite !append_assoc).
    rewrite <- !len_app. apply from_app. }
  rewrite Hrest. unfold keepToken.
  destruct (Contains tok "OSD" || Contains tok "osd"); [done|].
  by rewrite app_nil_r.
Qed.

(** X19: the fallback scan of [GetOSDs] ends on every response.  Each
    token it collects contains [OSD] or [osd] and no double quote, and has
    neither type nor video source token; a response without the marker
    gives none.  On a response that reads text, marker, token, double
    quote, rest, the result is the token, if it is kept, followed by the
    result for the rest from that double quote on. *)
Theorem osdLoop_tokens (respStr : string) :
  (∀ fuel configs, (String.length respStr <= fuel)%nat →
     osdLoop fuel respStr configs
     = osdLoop (String.length respStr) respStr configs)
  ∧ Forall scanned (osdLoop (String.length respStr) respStr [])
  ∧ (Contains respStr tokenMarker = false →
     osdLoop (String.length respStr) respStr [] = [])
  ∧ (∀ pre tok post,
       respStr = pre +:+ tokenMarker +:+ tok +:+ quote +:+ post →
       Contains pre tokenMarker = false → occurrences "034" tok = O →
       osdLoop (String.length respStr) respStr []
       = (keepToken tok
          ++ osdLoop (String.length (quote +:+ post)) (quote +:+ post) [])%list)
  ∧ osdLoop (String.length osdsResponse) osdsResponse []
    = [{| Token := "OSD_1"; Type_ := ""; VideoSourceToken := "" |};
       {| Token := "osd_time"; Type_ := ""; VideoSourceToken := "" |}].
Proof.
  split; [|split; [|split; [|split]]].
  - intros fuel configs Hfuel.
    by apply (osdLoop_fuel (String.length respStr)).
  - by apply osdLoop_scanned.
  - intros H%Contains_false. destruct (String.length respStr); [done|].
    cbn [osdLoop]. cbv zeta. by rewrite H.
  - intros pre tok post -> Hpre Htok.
    rewrite (osdLoop_fuel
               (String.length (pre +:+ tokenMarker +:+ tok +:+ quote +:+ post))
               _ _ _
               (S (String.length
                     (pre +:+ tokenMarker +:+ tok +:+ quote +:+ post))));
      [|lia..].
    rewrite osdLoop_round by done. rewrite osdLoop_acc. cbn [app]. f_equal.
    apply (osdLoop_fuel (String.length (quote +:+ post))); [lia| |lia].
    rewrite !append_length. lia.
  - by vm_compute.
Qed.

(** X20: [GetOSDs] returns configurations only without an error, and it
    fails only where the request fails or the response is a fault: a
    response that cannot be decoded is scanned for tokens and gives no
    error. *)
Theorem GetOSDs_errors (w : Soap.World)
  (unmarshal : string → option (list (string * string * string)))
  (c : Soap.Client) (camera : Camera) :
  let send := Soap.sendSOAPRequest w c
                (getMedia2URL (getFirstAddress (Address camera)))
                "http://www.onvif.org/ver20/media/wsdl/GetOSDs"
                "<tr2:GetOSDs/>" in
  (∀ err, (GetOSDs w unmarshal c camera).2 = Some err →
          (GetOSDs w unmarshal c camera).1 = [])
  ∧ ((GetOSDs w unmarshal c camera).2 = None ↔
     ∃ resp, send = (Some resp, None) ∧ containsSOAPFault resp = false)
  ∧ (∀ err, send.2 = Some err →
       GetOSDs w unmarshal c camera
       = ([], Some ("failed to get OSDs: " +:+ err)))
  ∧ (∀ resp, send = (Some resp, None) → parseSOAPFault resp = None →
       unmarshal resp = None ∨ unmarshal resp = Some [] →
       GetOSDs w unmarshal c camera
       = (osdLoop (String.length resp) resp [], None)).
Proof.
  cbv zeta. unfold GetOSDs.
  assert (Hsend : ∀ w c e a b, (Soap.sendSOAPRequest w c e a b).2 = None →
            ∃ resp, Soap.sendSOAPRequest w c e a b = (Some resp, None)).
  { intros w' c' e a b. unfold Soap.sendSOAPRequest.
    destruct (Soap.exchange _ _); try done.
    destruct (_ >=? 400); [destruct (_ =? 0); done|]. by eexists. }
  destruct (Soap.sendSOAPRequest w c _ _ _) as [resp [err|]] eqn:E.
  { split; [done|]. split; [split; [done|by intros (? & [=] & _)]|].
    split; [|done]. simpl. by intros ? [= <-]. }
  destruct (Hsend w c _ _ _ ltac:(by rewrite E)) as [r Hr].
  rewrite E in Hr. injection Hr as ->. cbn [default from_option id].
  destruct (parseSOAPFault r) as [e|] eqn:Ef.
  { split; [done|]. split; [|split; [by intros err|]].
    - split; [done|]. intros (r' & [= <-] & Hnf).
      apply parseSOAPFault_None in Hnf. congruence.
    - intros resp [= <-]. by rewrite Ef. }
  pose proof (proj1 (parseSOAPFault_None r) Ef) as Hnf.
  split; [|split; [|split]].
  - intros err. by destruct (unmarshal r) as [[|u us]|].
  - split; [intros _; by exists r|].
    intros _. by destruct (unmarshal r) as [[|u us]|].
  - by intros err.
  - intros resp [= <-] _ [->| ->]; done.
Qed.

End OsdFacts.

(** ** Choice of the sub stream *)

Section StreamFacts.
Import Streams.

Variable ToLower : string → string.

(** The test of the loop for a stream on its own, without the rule for the
    second place. *)
Lemma isSubAt_first (streams : list StreamConfig) (s : StreamConfig) :
  isSubAt ToLower streams 0 s
  = String.eqb (Quality s) "Sub"
    || Contains (ToLower (ProfileName s)) "stream2".
Proof.
  unfold isSubAt. cbn [Nat.eqb]. by rewrite andb_false_r, orb_false_r.
Qed.

(** X21: of two or more streams [UpdateSubStream] takes the first if its
    quality is [Sub] or its lowered name contains [stream2], and else the
    second, whatever the second and the later ones are: a sub stream is
    always found.  A single stream is taken only if it passes the test, no
    stream gives the error.  The encoder token that is updated is the
    profile token with its first [profile] replaced: a token without
    [profile] is passed on as it is. *)
Theorem UpdateSubStream_choice (streams : list StreamConfig)
  (UpdateStreamConfiguration : string → option string) :
  let named s := String.eqb (Quality s) "Sub"
                 || Contains (ToLower (ProfileName s)) "stream2" in
  let run := UpdateSubStream ToLower (streams, None)
               UpdateStreamConfiguration in
  (∀ s0 s1 rest, streams = s0 :: s1 :: rest →
     subStreamFrom ToLower streams 0 streams
     = Some (if named s0 then s0 else s1))
  ∧ (∀ s0, streams = [s0] →
       subStreamFrom ToLower streams 0 streams
       = if named s0 then Some s0 else None)
  ∧ (streams = [] → run = Some "no sub stream found")
  ∧ (∀ err, UpdateSubStream ToLower (streams, Some err)
              UpdateStreamConfiguration
            = Some ("failed to get stream profiles: " +:+ err))
  ∧ (∀ s v, subStreamFrom ToLower streams 0 streams = Some s →
       ProfileToken s = "profile" +:+ v →
       run = UpdateStreamConfiguration ("videoencoder_config" +:+ v))
  ∧ (∀ s, subStreamFrom ToLower streams 0 streams = Some s →
       Contains (ProfileToken s) "profile" = false →
       run = UpdateStreamConfiguration (ProfileToken s)).
Proof.
  cbv zeta. split; [|split; [|split; [|split; [|split]]]].
  - intros s0 s1 rest ->. cbn [subStreamFrom]. rewrite isSubAt_first.
    destruct (_ || _); [done|].
    unfold isSubAt. cbn [length Nat.eqb].
    replace (2 <=? _) with true by (symmetry; apply Z.leb_le; lia).
    cbn [andb]. by rewrite orb_true_r.
  - intros s0 ->. cbn [subStreamFrom]. rewrite isSubAt_first.
    by destruct (_ || _).
  - by intros ->.
  - done.
  - intros s v Hs Hv. unfold UpdateSubStream. rewrite Hs, Hv.
    by rewrite Replace_leading.
  - intros s Hs Hc. unfold UpdateSubStream. rewrite Hs.
    by rewrite Replace_absent.
Qed.

End StreamFacts.
